(** * Verification of the DHCP4 client packet socket and the hex parser
      of the test client (n-dhcp4).

    Source files: src/n-dhcp4-network.c
    (n_dhcp4_network_client_packet_socket_new) and src/test-run-client.c
    (parse_hexstr). *)

From Stdlib Require Import ZArith List Bool Lia Ascii String.
From Stdlib Require Import Strings.Byte.
Import ListNotations.
Open Scope Z_scope.

(* ------------------------------------------------------------------ *)
(** ** Classic BPF, as <linux/filter.h> and the kernel interpreter have it *)

Module Bpf.

(** struct sock_filter { __u16 code; __u8 jt; __u8 jf; __u32 k; } *)
Record sock_filter := mk_sock_filter {
  code : Z;
  jt : Z;
  jf : Z;
  k : Z
}.

(** Instruction classes, sizes, modes, operations and sources. *)
Definition BPF_LD := 0x00.
Definition BPF_LDX := 0x01.
Definition BPF_ST := 0x02.
Definition BPF_STX := 0x03.
Definition BPF_ALU := 0x04.
Definition BPF_JMP := 0x05.
Definition BPF_RET := 0x06.
Definition BPF_MISC := 0x07.

Definition BPF_W := 0x00.
Definition BPF_H := 0x08.
Definition BPF_B := 0x10.

Definition BPF_IMM := 0x00.
Definition BPF_ABS := 0x20.
Definition BPF_IND := 0x40.
Definition BPF_MEM := 0x60.
Definition BPF_LEN := 0x80.
Definition BPF_MSH := 0xa0.

Definition BPF_ADD := 0x00.
Definition BPF_SUB := 0x10.
Definition BPF_MUL := 0x20.
Definition BPF_OR := 0x40.
Definition BPF_AND := 0x50.
Definition BPF_LSH := 0x60.
Definition BPF_RSH := 0x70.

Definition BPF_JA := 0x00.
Definition BPF_JEQ := 0x10.
Definition BPF_JGT := 0x20.
Definition BPF_JGE := 0x30.
Definition BPF_JSET := 0x40.

Definition BPF_K := 0x00.
Definition BPF_X := 0x08.
Definition BPF_A := 0x10.

Definition BPF_TAX := 0x00.
Definition BPF_TXA := 0x80.

Definition BPF_CLASS (c : Z) := Z.land c 0x07.
Definition BPF_SIZE (c : Z) := Z.land c 0x18.
Definition BPF_MODE (c : Z) := Z.land c 0xe0.
Definition BPF_OP (c : Z) := Z.land c 0xf0.
Definition BPF_SRC (c : Z) := Z.land c 0x08.
Definition BPF_RVAL (c : Z) := Z.land c 0x18.
Definition BPF_MISCOP (c : Z) := Z.land c 0xf8.

Definition BPF_STMT (c kk : Z) : sock_filter := mk_sock_filter c 0 0 kk.
Definition BPF_JUMP (c kk t f : Z) : sock_filter := mk_sock_filter c t f kk.

(** Decoded instructions: the subset of classic BPF the kernel accepts and
    this repository's filter uses; anything else decodes to [None], i.e. the
    program is refused. *)
Inductive insn :=
| LdAbs (size off : Z)
| LdInd (size off : Z)
| LdLen
| LdImm (v : Z)
| LdxMsh (off : Z)
| AluK (op v : Z)
| AluX (op : Z)
| JmpK (op v : Z) (t f : nat)
| RetK (v : Z)
| RetA
| Tax
| Txa.

Definition decode (i : sock_filter) : option insn :=
  let c := code i in
  let cls := BPF_CLASS c in
  if cls =? BPF_LD then
    let m := BPF_MODE c in
    if m =? BPF_ABS then Some (LdAbs (BPF_SIZE c) (k i))
    else if m =? BPF_IND then Some (LdInd (BPF_SIZE c) (k i))
    else if (m =? BPF_LEN) && (BPF_SIZE c =? BPF_W) then Some LdLen
    else if (m =? BPF_IMM) && (BPF_SIZE c =? BPF_W) then Some (LdImm (k i))
    else None
  else if cls =? BPF_LDX then
    if (BPF_MODE c =? BPF_MSH) && (BPF_SIZE c =? BPF_B) then Some (LdxMsh (k i))
    else None
  else if cls =? BPF_ALU then
    if BPF_SRC c =? BPF_K then Some (AluK (BPF_OP c) (k i))
    else Some (AluX (BPF_OP c))
  else if cls =? BPF_JMP then
    if BPF_SRC c =? BPF_K then
      Some (JmpK (BPF_OP c) (k i) (Z.to_nat (jt i)) (Z.to_nat (jf i)))
    else None
  else if cls =? BPF_RET then
    if BPF_RVAL c =? BPF_K then Some (RetK (k i))
    else if BPF_RVAL c =? BPF_A then Some RetA
    else None
  else if cls =? BPF_MISC then
    if BPF_MISCOP c =? BPF_TAX then Some Tax
    else if BPF_MISCOP c =? BPF_TXA then Some Txa
    else None
  else None.

(** Unsigned 32-bit wrap-around of the registers. *)
Definition u32 (z : Z) : Z := z mod 2 ^ 32.

(** Packet loads.  The packet is the frame as the AF_PACKET/SOCK_DGRAM
    socket sees it (starting at the IP header); multi-byte loads are
    big-endian (network order), converted to host order by the kernel. *)
Definition load_byte (pkt : list byte) (off : Z) : option Z :=
  if off <? 0 then None
  else match nth_error pkt (Z.to_nat off) with
       | Some b => Some (Z.of_N (Byte.to_N b))
       | None => None
       end.

Definition load_half (pkt : list byte) (off : Z) : option Z :=
  match load_byte pkt off, load_byte pkt (off + 1) with
  | Some b0, Some b1 => Some (b0 * 256 + b1)
  | _, _ => None
  end.

Definition load_word (pkt : list byte) (off : Z) : option Z :=
  match load_half pkt off, load_half pkt (off + 2) with
  | Some h0, Some h1 => Some (h0 * 65536 + h1)
  | _, _ => None
  end.

Definition load (size : Z) (pkt : list byte) (off : Z) : option Z :=
  if size =? BPF_W then load_word pkt off
  else if size =? BPF_H then load_half pkt off
  else if size =? BPF_B then load_byte pkt off
  else None.

Definition alu (op a v : Z) : option Z :=
  if op =? BPF_ADD then Some (u32 (a + v))
  else if op =? BPF_SUB then Some (u32 (a - v))
  else if op =? BPF_MUL then Some (u32 (a * v))
  else if op =? BPF_OR then Some (Z.lor a v)
  else if op =? BPF_AND then Some (Z.land a v)
  else if op =? BPF_LSH then Some (u32 (Z.shiftl a v))
  else if op =? BPF_RSH then Some (Z.shiftr a v)
  else None.

Definition jmp_cond (op a v : Z) : option bool :=
  if op =? BPF_JEQ then Some (a =? v)
  else if op =? BPF_JGT then Some (v <? a)
  else if op =? BPF_JGE then Some (v <=? a)
  else if op =? BPF_JSET then Some (negb (Z.land a v =? 0))
  else None.

(** The interpreter.  A load out of the packet aborts the program with
    return value 0 (the frame is dropped), as the kernel does.  [None]
    means an instruction that is refused, a jump out of the program, or
    exhausted fuel. *)
Fixpoint run (fuel : nat) (prog : list insn) (pc : nat) (a x : Z)
    (pkt : list byte) : option Z :=
  match fuel with
  | O => None
  | S fuel' =>
    match nth_error prog pc with
    | None => None
    | Some i =>
      match i with
      | LdAbs size off =>
          match load size pkt off with
          | Some v => run fuel' prog (S pc) v x pkt
          | None => Some 0
          end
      | LdInd size off =>
          match load size pkt (x + off) with
          | Some v => run fuel' prog (S pc) v x pkt
          | None => Some 0
          end
      | LdLen => run fuel' prog (S pc) (Z.of_nat (List.length pkt)) x pkt
      | LdImm v => run fuel' prog (S pc) v x pkt
      | LdxMsh off =>
          match load_byte pkt off with
          | Some b => run fuel' prog (S pc) a (4 * Z.land b 0x0f) pkt
          | None => Some 0
          end
      | AluK op v =>
          match alu op a v with
          | Some a' => run fuel' prog (S pc) a' x pkt
          | None => None
          end
      | AluX op =>
          match alu op a x with
          | Some a' => run fuel' prog (S pc) a' x pkt
          | None => None
          end
      | JmpK op v t f =>
          match jmp_cond op a v with
          | Some true => run fuel' prog (S pc + t)%nat a x pkt
          | Some false => run fuel' prog (S pc + f)%nat a x pkt
          | None => None
          end
      | RetK v => Some v
      | RetA => Some a
      | Tax => run fuel' prog (S pc) a a pkt
      | Txa => run fuel' prog (S pc) x x pkt
      end
    end
  end.

(** Decode every instruction, as the kernel's checker does on attach. *)
Fixpoint decode_all (p : list sock_filter) : option (list insn) :=
  match p with
  | [] => Some []
  | i :: p' =>
      match decode i, decode_all p' with
      | Some d, Some ds => Some (d :: ds)
      | _, _ => None
      end
  end.

(** Running an attached filter on one frame: registers start at 0. *)
Definition run_filter (p : list sock_filter) (pkt : list byte) : option Z :=
  match decode_all p with
  | Some prog => run (List.length prog) prog 0 0 0 pkt
  | None => None
  end.

End Bpf.

(* ------------------------------------------------------------------ *)
(** ** Layouts and constants used by the filter *)

Module Net.
Import Bpf.

(** Host byte order: [true] on a little-endian host (x86, arm64). *)
Definition ntohs (host_le : bool) (v : Z) : Z :=
  if host_le then Z.lor (Z.shiftl (Z.land v 0xff) 8) (Z.land (Z.shiftr v 8) 0xff)
  else v.
Definition htons := ntohs.

(** <netinet/ip.h>, <netinet/in.h>, <linux/udp.h> *)
Definition IPPROTO_UDP := 17.
Definition IP_MF := 0x2000.
Definition IP_OFFMASK := 0x1fff.
Definition offsetof_iphdr_protocol := 9.
Definition offsetof_iphdr_frag_off := 6.
Definition offsetof_udphdr_dest := 2.
Definition sizeof_udphdr := 8.

(** Modelled from the spec: the declarations of n-dhcp4-private.h
    (N_DHCP4_NETWORK_CLIENT_PORT, N_DHCP4_OP_BOOTREPLY,
    N_DHCP4_MESSAGE_MAGIC, the layout of NDhcp4Header and NDhcp4Message)
    are not part of the sources; the spec gives client port 68,
    BOOTREPLY = 2, the magic cookie 0x63825363 and the BOOTP header
    op, htype, hlen, hops, xid, secs, flags, ciaddr, yiaddr, siaddr,
    giaddr, chaddr[16], sname[64], file[128] followed by the cookie,
    header plus cookie being 240 bytes. *)
Definition N_DHCP4_NETWORK_CLIENT_PORT := 68.
Definition N_DHCP4_OP_BOOTREPLY := 2.
Definition N_DHCP4_MESSAGE_MAGIC := 0x63825363.
Definition offsetof_NDhcp4Header_op := 0.
Definition offsetof_NDhcp4Header_xid := 4.
Definition offsetof_NDhcp4Message_magic := 236.
Definition sizeof_NDhcp4Message := 240.

(** The filter array of n_dhcp4_network_client_packet_socket_new. *)
Definition client_filter (host_le : bool) (xid : Z) : list sock_filter := [
  (* IP *)
  BPF_STMT (BPF_LD + BPF_B + BPF_ABS) offsetof_iphdr_protocol;
  BPF_JUMP (BPF_JMP + BPF_JEQ + BPF_K) IPPROTO_UDP 1 0;
  BPF_STMT (BPF_RET + BPF_K) 0;

  BPF_STMT (BPF_LD + BPF_B + BPF_ABS) offsetof_iphdr_frag_off;
  BPF_STMT (BPF_ALU + BPF_AND + BPF_K) (ntohs host_le (Z.lor IP_MF IP_OFFMASK));
  BPF_JUMP (BPF_JMP + BPF_JEQ + BPF_K) 0 1 0;
  BPF_STMT (BPF_RET + BPF_K) 0;

  BPF_STMT (BPF_LDX + BPF_B + BPF_MSH) 0;
  BPF_STMT (BPF_LD + BPF_W + BPF_LEN) 0;
  BPF_STMT (BPF_ALU + BPF_SUB + BPF_X) 0;
  BPF_JUMP (BPF_JMP + BPF_JGE + BPF_K) (sizeof_udphdr + sizeof_NDhcp4Message) 1 0;
  BPF_STMT (BPF_RET + BPF_K) 0;

  (* UDP *)
  BPF_STMT (BPF_LD + BPF_H + BPF_IND) offsetof_udphdr_dest;
  BPF_JUMP (BPF_JMP + BPF_JEQ + BPF_K) N_DHCP4_NETWORK_CLIENT_PORT 1 0;
  BPF_STMT (BPF_RET + BPF_K) 0;

  BPF_STMT (BPF_LD + BPF_W + BPF_K) sizeof_udphdr;
  BPF_STMT (BPF_ALU + BPF_ADD + BPF_X) 0;
  BPF_STMT (BPF_MISC + BPF_TAX) 0;

  (* DHCP *)
  BPF_STMT (BPF_LD + BPF_B + BPF_IND) offsetof_NDhcp4Header_op;
  BPF_JUMP (BPF_JMP + BPF_JEQ + BPF_K) N_DHCP4_OP_BOOTREPLY 1 0;
  BPF_STMT (BPF_RET + BPF_K) 0;

  BPF_STMT (BPF_LD + BPF_W + BPF_IND) offsetof_NDhcp4Header_xid;
  BPF_JUMP (BPF_JMP + BPF_JEQ + BPF_K) xid 1 0;
  BPF_STMT (BPF_RET + BPF_K) 0;

  BPF_STMT (BPF_LD + BPF_W + BPF_IND) offsetof_NDhcp4Message_magic;
  BPF_JUMP (BPF_JMP + BPF_JEQ + BPF_K) N_DHCP4_MESSAGE_MAGIC 1 0;
  BPF_STMT (BPF_RET + BPF_K) 0;

  BPF_STMT (BPF_RET + BPF_K) 65535
].

(** Fields of a frame as the AF_PACKET/SOCK_DGRAM socket delivers it
    (IP header first); [None] when the frame is too short to hold them. *)
Definition ip_protocol (f : list byte) := load_byte f offsetof_iphdr_protocol.
Definition ip_frag_off (f : list byte) := load_half f offsetof_iphdr_frag_off.
Definition ip_hdr_len (f : list byte) : option Z :=
  match load_byte f 0 with
  | Some b => Some (4 * Z.land b 0x0f)
  | None => None
  end.
Definition udp_field (size off : Z) (f : list byte) : option Z :=
  match ip_hdr_len f with
  | Some ihl => load size f (ihl + off)
  | None => None
  end.
Definition udp_dest := udp_field BPF_H offsetof_udphdr_dest.
Definition dhcp_op := udp_field BPF_B (sizeof_udphdr + offsetof_NDhcp4Header_op).
Definition dhcp_xid := udp_field BPF_W (sizeof_udphdr + offsetof_NDhcp4Header_xid).
Definition dhcp_magic := udp_field BPF_W (sizeof_udphdr + offsetof_NDhcp4Message_magic).
Definition frame_len (f : list byte) : Z := Z.of_nat (List.length f).

(** The decoded form of [client_filter]. *)
Definition client_prog (host_le : bool) (xid : Z) : list insn := [
  LdAbs 16 9; JmpK 16 17 1 0; RetK 0;
  LdAbs 16 6; AluK 80 (ntohs host_le 0x3fff); JmpK 16 0 1 0; RetK 0;
  LdxMsh 0; LdLen; AluX 16; JmpK 48 248 1 0; RetK 0;
  LdInd 8 2; JmpK 16 68 1 0; RetK 0;
  LdImm 8; AluX 0; Tax;
  LdInd 16 0; JmpK 16 2 1 0; RetK 0;
  LdInd 0 4; JmpK 16 xid 1 0; RetK 0;
  LdInd 0 236; JmpK 16 0x63825363 1 0; RetK 0;
  RetK 65535 ].

(** The conditions the program tests, in the order and with the exact
    arithmetic of the code: one byte of frag_off, and the 32-bit
    subtraction of the header length. *)
Definition filter_accepts (host_le : bool) (xid : Z) (f : list byte) : bool :=
  match load_byte f 9, load_byte f 6, load_byte f 0 with
  | Some p, Some fb, Some b0 =>
    let ihl := 4 * Z.land b0 15 in
    (p =? 17) && (Z.land fb (ntohs host_le 0x3fff) =? 0)
    && (248 <=? u32 (frame_len f - ihl))
    && match load_half f (ihl + 2), load_byte f (ihl + 8 + 0),
             load_word f (ihl + 8 + 4), load_word f (ihl + 8 + 236) with
       | Some port, Some op, Some xi, Some mg =>
         (port =? 68) && (op =? 2) && (xi =? xid) && (mg =? 0x63825363)
       | _, _, _, _ => false
       end
  | _, _, _ => false
  end.

(** A frame the kernel filter is meant to accept, field by field, in the
    words of the specification: UDP, unfragmented (frag_off masked by
    MF|OFFMASK is 0), long enough for the UDP header and the DHCP message,
    sent to the client port, a BOOTREPLY with the given xid and the
    magic cookie. *)
Definition spec_accepts (xid : Z) (f : list byte) : Prop :=
  ip_protocol f = Some IPPROTO_UDP /\
  (exists fo, ip_frag_off f = Some fo /\ Z.land fo (Z.lor IP_MF IP_OFFMASK) = 0) /\
  (exists ihl, ip_hdr_len f = Some ihl /\
     frame_len f - ihl >= sizeof_udphdr + sizeof_NDhcp4Message) /\
  udp_dest f = Some N_DHCP4_NETWORK_CLIENT_PORT /\
  dhcp_op f = Some N_DHCP4_OP_BOOTREPLY /\
  dhcp_xid f = Some xid /\
  dhcp_magic f = Some N_DHCP4_MESSAGE_MAGIC.

(** Concrete frames. *)
Definition byte_of_Z (z : Z) : byte :=
  match Byte.of_N (Z.to_N (z mod 256)) with
  | Some b => b
  | None => x00
  end.
Definition be16 (v : Z) : list byte := [byte_of_Z (v / 256); byte_of_Z v].
Definition be32 (v : Z) : list byte := be16 (v / 65536) ++ be16 v.

(** An IPv4/UDP/DHCP frame of 268 bytes: IP header of 20 bytes whose
    frag_off is 0x00 [frag_lo] (MF clear, fragment offset [frag_lo]),
    UDP from port 67 to port 68, a BOOTREPLY with transaction id [xid],
    and the magic cookie. *)
Definition test_frame (frag_lo : byte) (xid : Z) : list byte :=
  (* IPv4 header *)
  [x45; x00] ++ be16 268 ++ [x00; x00] ++ [x00; frag_lo] ++ [x40; x11]
  ++ [x00; x00] ++ repeat x00 8
  (* UDP header *)
  ++ be16 67 ++ be16 68 ++ be16 248 ++ [x00; x00]
  (* BOOTP header: op, htype, hlen, hops, xid, then 228 bytes up to the cookie *)
  ++ [x02; x01; x06; x00] ++ be32 xid ++ repeat x00 228
  ++ be32 N_DHCP4_MESSAGE_MAGIC.

(** Every jump of a classic BPF program lands inside the program.  Jump
    offsets are unsigned and relative to the next instruction, so jumps are
    forward only and the program has no loop. *)
Fixpoint jumps_in_range (p : list sock_filter) : bool :=
  match p with
  | [] => true
  | i :: p' =>
      (if BPF_CLASS (code i) =? BPF_JMP then
         (0 <=? jt i) && (jt i <? Z.of_nat (List.length p'))
         && (0 <=? jf i) && (jf i <? Z.of_nat (List.length p'))
       else true)
      && jumps_in_range p'
  end.

(** Every return instruction of the program returns 0 or 65535. *)
Definition returns_0_or_all (p : list sock_filter) : bool :=
  forallb (fun i => if BPF_CLASS (code i) =? BPF_RET then (k i =? 0) || (k i =? 65535)
                    else true) p.

(** The last instruction is a return. *)
Definition ends_in_ret (p : list sock_filter) : bool :=
  match rev p with
  | i :: _ => BPF_CLASS (code i) =? BPF_RET
  | [] => false
  end.

(** The same program with the transaction-id test (instructions 21 to 23)
    taken out. *)
Definition without_xid_check (p : list sock_filter) : list sock_filter :=
  firstn 21 p ++ skipn 24 p.

(** The frame with byte [p] replaced by [b] (unchanged when [p] is past
    its end). *)
Fixpoint set_byte (f : list byte) (p : nat) (b : byte) : list byte :=
  match f, p with
  | [], _ => []
  | _ :: f', O => b :: f'
  | c :: f', S p' => c :: set_byte f' p' b
  end.

(** The offsets the program loads from, for an IP header of [ihl] bytes:
    the version/IHL byte, the first byte of frag_off, the protocol, the
    UDP destination port, the DHCP op, the xid and the magic cookie. *)
Definition read_offsets (ihl : Z) : list Z :=
  [0; 6; 9; ihl + 2; ihl + 3; ihl + 8;
   ihl + 12; ihl + 13; ihl + 14; ihl + 15;
   ihl + 244; ihl + 245; ihl + 246; ihl + 247].

End Net.


(* ------------------------------------------------------------------ *)
(** ** The packet socket: system calls as explicit state passing *)

Module Sock.
Import Bpf Net.

(** Linux values of <sys/socket.h>, <asm/socket.h>, <linux/if_packet.h>
    and <linux/if_ether.h>. *)
Definition AF_PACKET := 17.
Definition SOCK_DGRAM := 2.
Definition SOL_SOCKET := 1.
Definition SO_ATTACH_FILTER := 26.
Definition SOL_PACKET := 263.
Definition PACKET_AUXDATA := 8.
Definition ETH_P_IP := 0x0800.

(** struct sock_fprog and the fields of struct sockaddr_ll the code sets
    (the others are zero). *)
Record sock_fprog := mk_sock_fprog { fprog_len : Z; fprog_filter : list sock_filter }.
Record sockaddr_ll := mk_sockaddr_ll {
  sll_family : Z;
  sll_protocol : Z;
  sll_ifindex : Z
}.

Inductive call :=
| Socket (domain type protocol : Z)
| SetsockoptFprog (fd level optname : Z) (v : sock_fprog)
| SetsockoptInt (fd level optname : Z) (v : Z)
| Bind (fd : Z) (addr : sockaddr_ll)
| Close (fd : Z).

(** Observable effects, in order: a system call with its return value and
    the errno it set (meaningful when the return value is negative), and
    a store through the out-pointer sockfdp. *)
Inductive event :=
| Syscall (c : call) (ret : Z) (err : Z)
| StoreSockfdp (v : Z).

Record world := mk_world {
  log : list event;
  errno : Z;
  sockfdp : Z   (* the int sockfdp points to *)
}.

(** The kernel answers a call, given what happened before, with a return
    value and the errno it sets when that value is negative. *)
Definition kernel := list event -> call -> Z * Z.

Definition M (A : Type) := world -> A * world.
Definition ret {A} (a : A) : M A := fun w => (a, w).
Definition bind {A B} (m : M A) (f : A -> M B) : M B :=
  fun w => let (a, w') := m w in f a w'.

Notation "x <- m ;; f" := (bind m (fun x => f))
  (at level 61, m at next level, right associativity).
Notation "m ;;; f" := (bind m (fun _ => f))
  (at level 61, right associativity).

Definition sys (K : kernel) (c : call) : M Z := fun w =>
  let (r, e) := K (log w) c in
  (r, mk_world (log w ++ [Syscall c r e]) (if r <? 0 then e else errno w) (sockfdp w)).

Definition get_errno : M Z := fun w => (errno w, w).

Definition store_sockfdp (v : Z) : M unit := fun w =>
  (tt, mk_world (log w ++ [StoreSockfdp v]) (errno w) v).

(** n_dhcp4_network_client_packet_socket_new(sockfdp, ifindex, xid). *)
Definition n_dhcp4_network_client_packet_socket_new
    (K : kernel) (host_le : bool) (ifindex xid : Z) : M Z :=
  let filter := client_filter host_le xid in
  let fprog := mk_sock_fprog (Z.of_nat (List.length filter)) filter in
  let addr := mk_sockaddr_ll AF_PACKET (htons host_le ETH_P_IP) ifindex in
  let on := 1 in
  sockfd <- sys K (Socket AF_PACKET SOCK_DGRAM 0) ;;
  if sockfd <? 0 then (e <- get_errno ;; ret (- e)) else
  r <- sys K (SetsockoptFprog sockfd SOL_SOCKET SO_ATTACH_FILTER fprog) ;;
  if r <? 0 then (e <- get_errno ;; ret (- e)) else
  r <- sys K (SetsockoptInt sockfd SOL_PACKET PACKET_AUXDATA on) ;;
  if r <? 0 then (e <- get_errno ;; ret (- e)) else
  r <- sys K (Bind sockfd addr) ;;
  if r <? 0 then (e <- get_errno ;; ret (- e)) else
  store_sockfdp sockfd ;;;
  ret 0.

(** The system calls among the events, with their results. *)
Fixpoint syscalls (evs : list event) : list (call * Z * Z) :=
  match evs with
  | [] => []
  | Syscall c r e :: evs' => (c, r, e) :: syscalls evs'
  | StoreSockfdp _ :: evs' => syscalls evs'
  end.

Definition is_store (ev : event) : bool :=
  match ev with StoreSockfdp _ => true | Syscall _ _ _ => false end.

Definition is_close (ev : event) : bool :=
  match ev with Syscall (Close _) _ _ => true | _ => false end.

(** Kernels used as concrete inputs: every call succeeds (socket returns
    descriptor 3), or socket succeeds and every later call fails with
    EPERM (1). *)
Definition kernel_ok : kernel := fun _ c =>
  match c with Socket _ _ _ => (3, 0) | _ => (0, 0) end.
Definition kernel_attach_fails : kernel := fun _ c =>
  match c with Socket _ _ _ => (3, 0) | _ => (-1, 1) end.

(** The world before the call: nothing logged, errno 0, *sockfdp = -1. *)
Definition world0 : world := mk_world [] 0 (-1).

(** The constructor on ifindex 1 and xid 0x12345678, on a little-endian
    host, with the two kernels above. *)
Definition run_ok := n_dhcp4_network_client_packet_socket_new kernel_ok true 1 0x12345678 world0.
Definition run_attach_fails :=
  n_dhcp4_network_client_packet_socket_new kernel_attach_fails true 1 0x12345678 world0.

End Sock.

(* ------------------------------------------------------------------ *)
(** ** parse_hexstr of the test client *)

Module Hex.

Definition ENOMEM := 12.

(** strlen: the characters before the first NUL. *)
Fixpoint strlen (s : string) : nat :=
  match s with
  | EmptyString => 0
  | String c s' => if Ascii.eqb c Ascii.zero then 0 else S (strlen s')
  end.

(** in[i] *)
Definition char_at (s : string) (i : nat) : Z :=
  match String.get i s with
  | Some c => Z.of_nat (Ascii.nat_of_ascii c)
  | None => 0
  end.

(** The switch on in[i]: the value v of one hex digit, 0 for any other
    character. *)
Definition hex_value (c : Z) : Z :=
  if (48 <=? c) && (c <=? 57) then c - 48                (* '0'...'9' *)
  else if (97 <=? c) && (c <=? 102) then c - 97 + 10     (* 'a'...'f' *)
  else if (65 <=? c) && (c <=? 70) then c - 65 + 10      (* 'A'...'F' *)
  else 0.

(** out[n] = v; the loop never writes out of the buffer. *)
Fixpoint set_nth (l : list Z) (n : nat) (v : Z) : list Z :=
  match l, n with
  | [], _ => []
  | _ :: t, O => v :: t
  | h :: t, S n' => h :: set_nth t n' v
  end.

(** uint8_t arithmetic. *)
Definition u8 (z : Z) : Z := Z.land z 255.

(** for (i = ...; i < n_in; ++i) { ... }, with [fuel] iterations left. *)
Fixpoint hex_loop (s : string) (i fuel : nat) (out : list Z) : list Z :=
  match fuel with
  | O => out
  | S fuel' =>
      let v := hex_value (char_at s i) in
      let out' :=
        if Nat.odd i then
          let shifted := u8 (Z.shiftl (nth (i / 2) out 0) 4) in   (* out[i / 2] <<= 4 *)
          set_nth out (i / 2) (u8 (Z.lor shifted v))              (* out[i / 2] |= v *)
        else set_nth out (i / 2) v                                (* out[i / 2] = v *)
      in
      hex_loop s (S i) fuel' out'
  end.

(** parse_hexstr(in, strp, n_strp): the return value and, when they are
    written, *strp and *n_strp.  [malloc n] is the allocator's answer: a
    buffer of n bytes of unspecified contents, or [None]. *)
Definition parse_hexstr (malloc : nat -> option (list Z)) (s : string)
    : Z * option (list Z * nat) :=
  let n_in := strlen s in
  let n_out := ((n_in + 1) / 2)%nat in
  match malloc n_out with
  | None => (- ENOMEM, None)
  | Some out =>
      let out := hex_loop s 0 n_in out in
      (0, Some (out, n_out))
  end.

(** The claim's reading of one hex character: its nibble for [0-9a-fA-F],
    0 for anything else. *)
Definition is_hex_char (c : Z) : bool :=
  ((48 <=? c) && (c <=? 57)) || ((97 <=? c) && (c <=? 102))
  || ((65 <=? c) && (c <=? 70)).

(** The claim's decoding of byte k: big nibble first for a full pair, the
    last nibble unshifted for a final odd character. *)
Definition decoded_byte (s : string) (k : nat) : Z :=
  if (2 * k + 1 <? strlen s)%nat
  then hex_value (char_at s (2 * k)) * 16 + hex_value (char_at s (2 * k + 1))
  else hex_value (char_at s (2 * k)).

(** What byte k holds once the first i characters are processed. *)
Definition partial_byte (s : string) (i k : nat) : Z :=
  if (2 * k + 1 <? i)%nat
  then hex_value (char_at s (2 * k)) * 16 + hex_value (char_at s (2 * k + 1))
  else hex_value (char_at s (2 * k)).

(** An allocator handing out zero-filled buffers, and one that fails. *)
Definition malloc_zero (n : nat) : option (list Z) := Some (repeat 0 n).
Definition malloc_fail (n : nat) : option (list Z) := None.

(** toupper of the C locale, and its application to a whole string. *)
Definition toupper (c : ascii) : ascii :=
  let n := Ascii.nat_of_ascii c in
  if (97 <=? n)%nat && (n <=? 122)%nat then Ascii.ascii_of_nat (n - 32) else c.

Fixpoint upcase (s : string) : string :=
  match s with
  | EmptyString => EmptyString
  | String c s' => String (toupper c) (upcase s')
  end.

(** Hex encoding of a byte buffer, two lower-case digits per byte, big
    nibble first: the format the test client's --mac and --broadcast-mac
    take. *)
Definition hex_digit (d : Z) : ascii :=
  Ascii.ascii_of_nat (Z.to_nat (if d <? 10 then 48 + d else 87 + d)).

Fixpoint hex_encode (bs : list Z) : string :=
  match bs with
  | [] => EmptyString
  | b :: bs' => String (hex_digit (b / 16)) (String (hex_digit (b mod 16)) (hex_encode bs'))
  end.

End Hex.

(* ------------------------------------------------------------------ *)
(** ** The test client runner: main, parse_argv, setup_test and the
       manager, over the C library and the n-dhcp4 client API *)

Module Runner.

(** Exit codes of the enum at the top of test-run-client.c, errno values
    and <poll.h>. *)
Definition MAIN_SUCCESS := 0.
Definition MAIN_EXIT := 1.
Definition MAIN_FAILED := 2.
Definition ENOMEM := 12.
Definition ENOTRECOVERABLE := 131.
Definition POLLIN := 1.

(** What getopt_long returns for the options of parse_argv: 'h', '?', and
    the enum starting at 0x100. *)
Definition OPT_HELP := 104.
Definition OPT_UNKNOWN := 63.
Definition ARG_BROADCAST_MAC := 0x101.
Definition ARG_IFINDEX := 0x102.
Definition ARG_MAC := 0x103.
Definition ARG_TEST := 0x104.

(** sizeof(Manager): two pointers on an LP64 target. *)
Definition sizeof_Manager := 16.

(** The calls the test client makes into the C library and the n-dhcp4
    client API.  Output to stdout and stderr is not modelled. *)
Inductive lcall :=
| TestSetup
| Malloc (size : Z)
| Free (p : Z)
| ClientConfigNew
| ClientConfigFree (config : Z)
| ClientConfigSetBroadcastMac (config mac n : Z)
| ClientConfigSetIfindex (config ifindex : Z)
| ClientConfigSetMac (config mac n : Z)
| ClientNew (config : Z)
| ClientUnref (client : Z)
| ClientProbeFree (probe : Z)
| ClientProbeConfigNew
| ClientProbeConfigFree (config : Z)
| ClientProbe (client config : Z)
| ClientGetFd (client : Z)
| Poll (fd events : Z)
| ClientDispatch (client : Z)
| ClientPopEvent (client : Z).

(** A call with its answer: the return value, the value stored through
    its out-pointer (the new object, the event, the descriptor, the
    revents of the polled descriptor; 0 when there is none) and the errno
    it sets (0 for none). *)
Inductive event := Call (c : lcall) (ret out err : Z).

(** The environment answers a call, given the calls made so far. *)
Definition env := list event -> lcall -> Z * Z * Z.

(** The static variables main_arg_* . *)
Record args := mk_args {
  main_arg_broadcast_mac : Z;
  main_arg_n_broadcast_mac : Z;
  main_arg_ifindex : Z;
  main_arg_mac : Z;
  main_arg_n_mac : Z;
  main_arg_test : bool
}.

Record state := mk_state {
  trace : list event;
  cerrno : Z;
  globals : args
}.

(** How a computation ends: with a value, in abort() (a failed assert)
    or a NULL dereference, or still running when its fuel runs out (the
    for (;;) loops do not terminate by themselves). *)
Inductive outcome (A : Type) := Done (a : A) | Crash | OutOfFuel.
Arguments Done {A} a.
Arguments Crash {A}.
Arguments OutOfFuel {A}.

Definition M (A : Type) := state -> outcome A * state.
Definition ret {A} (a : A) : M A := fun s => (Done a, s).
Definition bind {A B} (m : M A) (f : A -> M B) : M B := fun s =>
  match m s with
  | (Done a, s') => f a s'
  | (Crash, s') => (Crash, s')
  | (OutOfFuel, s') => (OutOfFuel, s')
  end.
Definition crash {A} : M A := fun s => (Crash, s).
Definition out_of_fuel {A} : M A := fun s => (OutOfFuel, s).

Notation "x <- m ;; f" := (bind m (fun x => f))
  (at level 61, m at next level, right associativity).
Notation "m ;;; f" := (bind m (fun _ => f))
  (at level 61, right associativity).

(** errno after a call that sets [e] (0: left alone). *)
Definition errno_after (e old : Z) : Z := if e =? 0 then old else e.
Arguments errno_after : simpl never.

Definition call (E : env) (c : lcall) : M (Z * Z) := fun s =>
  let '(r, out, e) := E (trace s) c in
  (Done (r, out), mk_state (trace s ++ [Call c r out e]) (errno_after e (cerrno s)) (globals s)).
Definition call_ (E : env) (c : lcall) : M unit := _ <- call E c ;; ret tt.
Definition free_ (E : env) (p : Z) : M unit := call_ E (Free p).

Definition get_errno : M Z := fun s => (Done (cerrno s), s).
Definition set_errno (e : Z) : M unit := fun s =>
  (Done tt, mk_state (trace s) e (globals s)).
Definition get_globals : M args := fun s => (Done (globals s), s).
Definition put_globals (g : args) : M unit := fun s =>
  (Done tt, mk_state (trace s) (cerrno s) g).

Definition set_broadcast_mac (g : args) (b n : Z) : args :=
  mk_args b n (main_arg_ifindex g) (main_arg_mac g) (main_arg_n_mac g) (main_arg_test g).
Definition set_ifindex (g : args) (i : Z) : args :=
  mk_args (main_arg_broadcast_mac g) (main_arg_n_broadcast_mac g) i
    (main_arg_mac g) (main_arg_n_mac g) (main_arg_test g).
Definition set_mac (g : args) (b n : Z) : args :=
  mk_args (main_arg_broadcast_mac g) (main_arg_n_broadcast_mac g) (main_arg_ifindex g)
    b n (main_arg_test g).
Definition set_test (g : args) : args :=
  mk_args (main_arg_broadcast_mac g) (main_arg_n_broadcast_mac g) (main_arg_ifindex g)
    (main_arg_mac g) (main_arg_n_mac g) true.

(** The initial values of the static variables. *)
Definition args0 : args := mk_args 0 0 0 0 0 false.

(** atoi of the C library: leading white space, a sign, then decimal
    digits (values beyond the range of int are not modelled). *)
Definition is_space (c : ascii) : bool :=
  let n := Ascii.nat_of_ascii c in (n =? 32)%nat || ((9 <=? n)%nat && (n <=? 13)%nat).
Definition is_digit (c : ascii) : bool :=
  let n := Ascii.nat_of_ascii c in (48 <=? n)%nat && (n <=? 57)%nat.
Fixpoint atoi_digits (s : string) (acc : Z) : Z :=
  match s with
  | String c s' =>
      if is_digit c then atoi_digits s' (acc * 10 + (Z.of_nat (Ascii.nat_of_ascii c) - 48))
      else acc
  | EmptyString => acc
  end.
Fixpoint atoi (s : string) : Z :=
  match s with
  | String c s' =>
      if is_space c then atoi s'
      else if Ascii.eqb c "-"%char then - atoi_digits s' 0
      else if Ascii.eqb c "+"%char then atoi_digits s' 0
      else atoi_digits s 0
  | EmptyString => 0
  end.

(** parse_hexstr(in, &t, &n): its allocation of out and its outputs
    (return value, *strp, *n_strp); the bytes it writes into out are
    those of [Hex.parse_hexstr].  The cleanup of out runs on NULL on both
    paths and frees nothing. *)
Definition parse_hexstr (E : env) (s : string) : M (Z * Z * Z) :=
  let n_in := Hex.strlen s in
  let n_out := Z.of_nat ((n_in + 1) / 2) in
  o <- call E (Malloc n_out) ;;
  let out := fst o in
  if out =? 0 then ret (- ENOMEM, 0, 0) else
  ret (0, out, n_out).

(** setup_test() *)
Definition setup_test (E : env) : M Z :=
  call_ E TestSetup ;;;
  (* --broadcast-mac *)
  o <- call E (Malloc 6) ;;
  let b := fst o in
  if b =? 0 then crash else                          (* assert(b) *)
  g <- get_globals ;;
  free_ E (main_arg_broadcast_mac g) ;;;
  put_globals (set_broadcast_mac g b 6) ;;;
  (* --ifindex *)
  g <- get_globals ;;
  put_globals (set_ifindex g 1) ;;;
  (* --mac *)
  o <- call E (Malloc 6) ;;
  let b := fst o in
  if b =? 0 then crash else                          (* assert(b) *)
  g <- get_globals ;;
  free_ E (main_arg_mac g) ;;;
  put_globals (set_mac g b 6) ;;;
  ret 0.

(** The while loop of parse_argv, over the successive results of
    getopt_long (each with its optarg); [Some r] is a return r out of
    parse_argv, [None] the end of the options. *)
Fixpoint parse_options (E : env) (opts : list (Z * string)) : M (option Z) :=
  match opts with
  | [] => ret None
  | (c, optarg) :: opts' =>
      if c =? OPT_HELP then ret (Some MAIN_EXIT)       (* print_help() *)
      else if c =? ARG_BROADCAST_MAC then
        o <- parse_hexstr E optarg ;;
        let '(r, t, n) := o in
        if negb (r =? 0) then ret (Some r) else
        g <- get_globals ;;
        free_ E (main_arg_broadcast_mac g) ;;;
        put_globals (set_broadcast_mac g t n) ;;;
        parse_options E opts'
      else if c =? ARG_IFINDEX then
        g <- get_globals ;;
        put_globals (set_ifindex g (atoi optarg)) ;;;
        parse_options E opts'
      else if c =? ARG_MAC then
        o <- parse_hexstr E optarg ;;
        let '(r, t, n) := o in
        if negb (r =? 0) then ret (Some r) else
        g <- get_globals ;;
        free_ E (main_arg_mac g) ;;;
        put_globals (set_mac g t n) ;;;
        parse_options E opts'
      else if c =? ARG_TEST then
        r <- setup_test E ;;
        if negb (r =? 0) then ret (Some r) else
        g <- get_globals ;;
        put_globals (set_test g) ;;;
        parse_options E opts'
      else if c =? OPT_UNKNOWN then ret (Some MAIN_FAILED)
      else ret (Some (- ENOTRECOVERABLE))
  end.

(** parse_argv(argc, argv): [opts] are the results of getopt_long before
    it returns -1, [extra] tells whether optind != argc afterwards. *)
Definition parse_argv (E : env) (opts : list (Z * string)) (extra : bool) : M Z :=
  o <- parse_options E opts ;;
  match o with
  | Some r => ret r
  | None =>
      if extra then ret MAIN_FAILED else
      g <- get_globals ;;
      if (main_arg_broadcast_mac g =? 0) || (main_arg_ifindex g =? 0)
         || (main_arg_mac g =? 0)
      then ret MAIN_FAILED
      else ret 0
  end.

(** struct Manager, with the address of its allocation. *)
Record manager := mk_manager {
  m_self : Z;
  client : Z;
  probe : Z
}.

(** manager_free(manager); [None] is NULL.  It returns NULL. *)
Definition manager_free (E : env) (m : option manager) : M unit :=
  match m with
  | None => ret tt
  | Some mg =>
      call_ E (ClientProbeFree (probe mg)) ;;;
      call_ E (ClientUnref (client mg)) ;;;
      free_ E (m_self mg)
  end.

(** The _cleanup_ helpers of the client API's configuration objects:
    the destructor runs on a non-NULL object. *)
Definition client_config_freep (E : env) (config : Z) : M unit :=
  if config =? 0 then ret tt else call_ E (ClientConfigFree config).
Definition client_probe_config_freep (E : env) (config : Z) : M unit :=
  if config =? 0 then ret tt else call_ E (ClientProbeConfigFree config).

(** manager_new(&manager): the return value and what *managerp is set to
    ([None] when it is not written).  The _cleanup_ variables are released
    in reverse order of declaration: the manager, then the config. *)
Definition manager_new (E : env) : M (Z * option manager) :=
  o <- call E (Malloc sizeof_Manager) ;;
  let p := fst o in
  if p =? 0 then
    manager_free E None ;;; client_config_freep E 0 ;;; ret (- ENOMEM, None)
  else
  let mg := mk_manager p 0 0 in                      (* MANAGER_NULL *)
  o <- call E ClientConfigNew ;;
  let '(r, config) := o in
  if negb (r =? 0) then
    manager_free E (Some mg) ;;; client_config_freep E config ;;; ret (r, None)
  else
  g <- get_globals ;;
  call_ E (ClientConfigSetBroadcastMac config (main_arg_broadcast_mac g)
                                              (main_arg_n_broadcast_mac g)) ;;;
  call_ E (ClientConfigSetIfindex config (main_arg_ifindex g)) ;;;
  call_ E (ClientConfigSetMac config (main_arg_mac g) (main_arg_n_mac g)) ;;;
  o <- call E (ClientNew config) ;;
  let '(r, cl) := o in
  let mg := mk_manager p cl 0 in
  if negb (r =? 0) then
    manager_free E (Some mg) ;;; client_config_freep E config ;;; ret (r, None)
  else
  (* *managerp = manager; manager = NULL; *)
  manager_free E None ;;; client_config_freep E config ;;; ret (0, Some mg).

(** The for (;;) loop of manager_dispatch. *)
Fixpoint pop_events (E : env) (fuel : nat) (cl : Z) : M Z :=
  match fuel with
  | O => out_of_fuel
  | S fuel' =>
      o <- call E (ClientPopEvent cl) ;;
      let '(r, ev) := o in
      if negb (r =? 0) then ret r else
      if ev =? 0 then ret 0 else
      (* fprintf(stderr, "Event: %u\n", event->event) *)
      pop_events E fuel' cl
  end.

Definition manager_dispatch (E : env) (fuel : nat) (mg : manager) : M Z :=
  o <- call E (ClientDispatch (client mg)) ;;
  let r := fst o in
  if negb (r =? 0) then ret r else
  pop_events E fuel (client mg).

(** for (i = 0; i < (size_t)n; ++i) over the revents of pfds, from index
    [i] with [cnt] iterations left; reading past pfds crashes.  [Some r]
    is a return r out of manager_run. *)
Fixpoint pfds_loop (E : env) (fuel : nat) (mg : manager) (revents : list Z)
    (i cnt : nat) : M (option Z) :=
  match cnt with
  | O => ret None
  | S cnt' =>
      match nth_error revents i with
      | None => crash
      | Some rv =>
          if negb (Z.land rv (Z.lnot POLLIN) =? 0) then ret (Some (- ENOTRECOVERABLE))
          else if Z.land rv POLLIN =? 0 then pfds_loop E fuel mg revents (S i) cnt'
          else
            r <- manager_dispatch E fuel mg ;;
            if negb (r =? 0) then ret (Some r)
            else pfds_loop E fuel mg revents (S i) cnt'
      end
  end.

(** The for (;;) loop of manager_run. *)
Fixpoint poll_loop (E : env) (fuel : nat) (mg : manager) : M Z :=
  match fuel with
  | O => out_of_fuel
  | S fuel' =>
      o <- call E (ClientGetFd (client mg)) ;;
      let fd := snd o in
      o <- call E (Poll fd POLLIN) ;;
      let '(n, revents) := o in
      if n <? 0 then (e <- get_errno ;; ret (- e)) else
      x <- pfds_loop E fuel' mg [revents] 0 (Z.to_nat n) ;;
      match x with
      | Some r => ret r
      | None => poll_loop E fuel' mg
      end
  end.

(** manager_run(manager): the return value and the manager, whose probe
    field it sets. *)
Definition manager_run (E : env) (fuel : nat) (mg : manager) : M (Z * manager) :=
  o <- call E ClientProbeConfigNew ;;
  let '(r, config) := o in
  if negb (r =? 0) then client_probe_config_freep E config ;;; ret (r, mg) else
  o <- call E (ClientProbe (client mg) config) ;;
  let '(r, pr) := o in
  let mg := mk_manager (m_self mg) (client mg) pr in
  if negb (r =? 0) then client_probe_config_freep E config ;;; ret (r, mg) else
  g <- get_globals ;;
  if main_arg_test g then client_probe_config_freep E config ;;; ret (0, mg) else
  r <- poll_loop E fuel mg ;;
  client_probe_config_freep E config ;;; ret (r, mg).

(** run() *)
Definition run (E : env) (fuel : nat) : M Z :=
  o <- manager_new E ;;
  let '(r, m) := o in
  if negb (r =? 0) then manager_free E m ;;; ret r else
  match m with
  | None => crash                                    (* manager_run(NULL) *)
  | Some mg =>
      o <- manager_run E fuel mg ;;
      let '(r, mg) := o in
      manager_free E (Some mg) ;;; ret r
  end.

(** main(argc, argv), returning the exit status. *)
Definition main (E : env) (opts : list (Z * string)) (extra : bool) (fuel : nat) : M Z :=
  r <- parse_argv E opts extra ;;
  r <- (if negb (r =? 0) then ret r else run E fuel) ;;
  r <- (if r =? MAIN_EXIT then ret 0
        else if r <? 0 then set_errno (- r) ;;; ret 127
        else ret r) ;;
  g <- get_globals ;;
  free_ E (main_arg_broadcast_mac g) ;;;
  free_ E (main_arg_mac g) ;;;
  ret r.

(** Ownership: the object a call hands out (heap memory, a client
    configuration, a client, a probe configuration, a probe) and the one
    a call gives back. *)
Inductive kind := KMem | KConfig | KClient | KProbeConfig | KProbe.

Definition kind_eqb (a b : kind) : bool :=
  match a, b with
  | KMem, KMem | KConfig, KConfig | KClient, KClient
  | KProbeConfig, KProbeConfig | KProbe, KProbe => true
  | _, _ => false
  end.

Definition acquired (ev : event) : option (kind * Z) :=
  match ev with
  | Call (Malloc _) p _ _ => if p =? 0 then None else Some (KMem, p)
  | Call ClientConfigNew _ o _ => if o =? 0 then None else Some (KConfig, o)
  | Call (ClientNew _) _ o _ => if o =? 0 then None else Some (KClient, o)
  | Call ClientProbeConfigNew _ o _ => if o =? 0 then None else Some (KProbeConfig, o)
  | Call (ClientProbe _ _) _ o _ => if o =? 0 then None else Some (KProbe, o)
  | _ => None
  end.

Definition released (ev : event) : option (kind * Z) :=
  match ev with
  | Call (Free p) _ _ _ => Some (KMem, p)
  | Call (ClientConfigFree o) _ _ _ => Some (KConfig, o)
  | Call (ClientUnref o) _ _ _ => Some (KClient, o)
  | Call (ClientProbeConfigFree o) _ _ _ => Some (KProbeConfig, o)
  | Call (ClientProbeFree o) _ _ _ => Some (KProbe, o)
  | _ => None
  end.

Definition releases (x : kind * Z) (ev : event) : bool :=
  match released ev with
  | Some y => kind_eqb (fst x) (fst y) && (snd x =? snd y)
  | None => false
  end.

(** The objects handed out in [evs] that no later call of [evs] gives
    back. *)
Fixpoint unreleased (evs : list event) : list (kind * Z) :=
  match evs with
  | [] => []
  | ev :: evs' =>
      match acquired ev with
      | Some x => if existsb (releases x) evs' then unreleased evs'
                  else x :: unreleased evs'
      | None => unreleased evs'
      end
  end.

(** A call that neither hands out nor gives back an object. *)
Definition inert (ev : event) : bool :=
  match acquired ev, released ev with None, None => true | _, _ => false end.

(** [s'] extends the trace of [s] with calls that hand out and give
    back nothing, and leaves the static variables alone. *)
Definition quiet (s s' : state) : Prop :=
  globals s' = globals s /\
  exists evs, trace s' = trace s ++ evs /\ forallb inert evs = true.

(** The objects handed out in [evs] and not given back are among the
    buffers the static variables main_arg_broadcast_mac and main_arg_mac
    point to. *)
Definition owned_by_args (g : args) (evs : list event) : Prop :=
  forall x, In x (unreleased evs) ->
    x = (KMem, main_arg_broadcast_mac g) \/ x = (KMem, main_arg_mac g).

(** Whether [evs] polls. *)
Definition is_poll (ev : event) : bool :=
  match ev with Call (Poll _ _) _ _ _ => true | _ => false end.

(** An environment in which every call succeeds: malloc and the
    constructors hand out fresh addresses, every poll reports POLLIN and
    the event queue is always empty; and one in which poll fails with
    EINTR (4). *)
Definition env_ok : env := fun l c =>
  let a := Z.of_nat (List.length l) + 100 in
  match c with
  | Malloc _ | ClientConfigNew | ClientNew _ | ClientProbeConfigNew | ClientProbe _ _ =>
      match c with Malloc _ => (a, 0, 0) | _ => (0, a, 0) end
  | ClientGetFd _ => (0, 7, 0)
  | Poll _ _ => (1, POLLIN, 0)
  | _ => (0, 0, 0)
  end.
Definition env_poll_fails : env := fun l c =>
  match c with
  | Poll _ _ => (-1, 0, 4)
  | _ => env_ok l c
  end.

Definition state0 : state := mk_state [] 0 args0.

End Runner.

(* ================================================================== *)
(** * Proofs *)

(* ------------------------------------------------------------------ *)
(** ** Evaluation of the filter on an arbitrary frame *)

Module FilterSem.
Import Bpf Net.

Lemma decode_client_filter host_le xid :
  decode_all (client_filter host_le xid) = Some (client_prog host_le xid).
Proof. reflexivity. Qed.

Lemma u32_ihl b : u32 (8 + 4 * Z.land b 15) = 4 * Z.land b 15 + 8.
Proof.
  unfold u32.
  assert (0 <= Z.land b 15 <= 15).
  { change 15 with (Z.ones 4). rewrite Z.land_ones by lia.
    pose proof (Z.mod_pos_bound b (2 ^ 4)). cbn in *. lia. }
  rewrite Z.mod_small; lia.
Qed.

(** Symbolic execution: reduce the interpreter, split on every load and
    every comparison, innermost first. *)
Ltac symex_step :=
  match goal with
  | |- context [u32 (8 + 4 * Z.land ?b 15)] => rewrite (u32_ihl b)
  | |- context [match ?e with _ => _ end] =>
      lazymatch e with
      | context [match _ with _ => _ end] => fail
      | _ => destruct e eqn:?
      end
  end.

Ltac symex :=
  cbn -[load_byte load_half load_word u32 ntohs Z.mul Z.add Z.land Z.sub];
  repeat (symex_step;
          cbn -[load_byte load_half load_word u32 ntohs Z.mul Z.add Z.land Z.sub]);
  try reflexivity.

Lemma client_filter_run host_le xid f :
  run_filter (client_filter host_le xid) f =
  Some (if filter_accepts host_le xid f then 65535 else 0).
Proof.
  unfold run_filter. rewrite decode_client_filter.
  unfold filter_accepts, frame_len.
  symex.
Qed.

Lemma decode_without_xid_check host_le xid :
  decode_all (without_xid_check (client_filter host_le xid)) =
  Some (firstn 21 (client_prog host_le xid) ++ skipn 24 (client_prog host_le xid)).
Proof. reflexivity. Qed.

(** The fields read through the header length, in the form the program
    computes their offsets. *)
Lemma udp_dest_load f :
  udp_dest f = match load_byte f 0 with
               | Some b => load_half f (4 * Z.land b 15 + 2)
               | None => None
               end.
Proof.
  unfold udp_dest, udp_field, ip_hdr_len.
  destruct (load_byte f 0); reflexivity.
Qed.

Lemma dhcp_xid_load f :
  dhcp_xid f = match load_byte f 0 with
               | Some b => load_word f (4 * Z.land b 15 + 8 + 4)
               | None => None
               end.
Proof.
  unfold dhcp_xid, udp_field, ip_hdr_len.
  destruct (load_byte f 0); [|reflexivity].
  cbn -[load_word Z.mul Z.land Z.add]. f_equal.
  unfold sizeof_udphdr, offsetof_NDhcp4Header_xid. lia.
Qed.

(** Close the goals left by [symex]: turn the tested comparisons into
    equations and conclude. *)
Ltac finish :=
  intros;
  repeat match goal with
  | H : (_ && _) = true |- _ => apply andb_true_iff in H; destruct H
  | H : (_ =? _) = true |- _ => apply Z.eqb_eq in H
  | H : (_ =? _) = false |- _ => apply Z.eqb_neq in H
  end;
  subst; congruence.

(** What an accepted frame satisfies, read off the code's conditions. *)
Lemma filter_accepts_fields host_le xid f :
  filter_accepts host_le xid f = true ->
  exists b0, load_byte f 0 = Some b0 /\
    load_byte f 9 = Some 17 /\
    (exists fb, load_byte f 6 = Some fb /\ Z.land fb (ntohs host_le 0x3fff) = 0) /\
    248 <= u32 (frame_len f - 4 * Z.land b0 15) /\
    load_half f (4 * Z.land b0 15 + 2) = Some 68 /\
    load_byte f (4 * Z.land b0 15 + 8 + 0) = Some 2 /\
    load_word f (4 * Z.land b0 15 + 8 + 4) = Some xid /\
    load_word f (4 * Z.land b0 15 + 8 + 236) = Some 0x63825363.
Proof.
  unfold filter_accepts.
  destruct (load_byte f 9) as [p|] eqn:?, (load_byte f 6) as [fb|] eqn:?,
    (load_byte f 0) as [b0|] eqn:?; try discriminate.
  destruct (load_half f (4 * Z.land b0 15 + 2)) as [port|] eqn:?,
    (load_byte f (4 * Z.land b0 15 + 8 + 0)) as [op|] eqn:?,
    (load_word f (4 * Z.land b0 15 + 8 + 4)) as [xi|] eqn:?,
    (load_word f (4 * Z.land b0 15 + 8 + 236)) as [mg|] eqn:?;
    rewrite ?andb_false_r; try discriminate.
  intros H.
  repeat match goal with
  | H : (_ && _) = true |- _ => apply andb_true_iff in H; destruct H
  | H : (_ =? _) = true |- _ => apply Z.eqb_eq in H
  | H : (_ <=? _) = true |- _ => apply Z.leb_le in H
  end.
  subst. exists b0. repeat split; eauto.
Qed.

End FilterSem.

Import Bpf Net FilterSem.

Example test_frame_accepted :
  run_filter (client_filter true 0x12345678) (test_frame x00 0x12345678) = Some 65535.
Proof. vm_compute. reflexivity. Qed.
Example test_frame_len : List.length (test_frame x00 0) = 268%nat.
Proof. reflexivity. Qed.

(** ** C1: the acceptance condition of the kernel filter *)

(** C1 (code_bug).  The filter accepts (returns 65535 for) a frame that
    satisfies every condition of the specification except that it is a
    fragment: frag_off is 0x0001 (MF clear, fragment offset 1), so
    frag_off masked by MF|OFFMASK is 1, not 0.  The program loads one byte
    of frag_off and never looks at the low 8 offset bits. *)
Theorem C1_fragment_accepted :
  run_filter (client_filter true 0x12345678) (test_frame x01 0x12345678) = Some 65535 /\
  ip_frag_off (test_frame x01 0x12345678) = Some 1 /\
  ~ spec_accepts 0x12345678 (test_frame x01 0x12345678).
Proof.
  split; [vm_compute; reflexivity|].
  split; [vm_compute; reflexivity|].
  intros (_ & (fo & Hfo & Hmask) & _).
  vm_compute in Hfo. injection Hfo as <-. vm_compute in Hmask. discriminate.
Qed.

(** ** C2: fragmented frames *)

(** C2 (code_bug).  On either host byte order, every UDP frame of the
    shape [test_frame] whose frag_off is 0x00XX (MF clear, fragment offset
    XX from 0 to 255, in 8-byte units) is accepted, so the frames with a
    nonzero XX, whose frag_off masked by MF|OFFMASK is nonzero, are not
    dropped. *)
Theorem C2_low_offset_fragments_accepted :
  forall (host_le : bool) (o : byte),
    ip_protocol (test_frame o 0x12345678) = Some IPPROTO_UDP /\
    ip_frag_off (test_frame o 0x12345678) = Some (Z.of_N (Byte.to_N o)) /\
    run_filter (client_filter host_le 0x12345678) (test_frame o 0x12345678) = Some 65535.
Proof.
  intros host_le o.
  destruct host_le, o; vm_compute; repeat split.
Qed.

(** ** C5: the transaction id is an immediate of the program *)

(** C5.  The xid given at socket creation is the immediate of the
    comparison at instruction 22; a frame whose DHCP xid field is not that
    xid is dropped, and a frame carrying it is treated exactly as by the
    same program with the xid test taken out. *)
Theorem C5_xid_immediate :
  forall (host_le : bool) (x : Z) (f : list byte),
    nth_error (client_filter host_le x) 22 = Some (BPF_JUMP (BPF_JMP + BPF_JEQ + BPF_K) x 1 0) /\
    (dhcp_xid f <> Some x -> run_filter (client_filter host_le x) f = Some 0) /\
    (dhcp_xid f = Some x ->
     run_filter (client_filter host_le x) f =
     run_filter (without_xid_check (client_filter host_le x)) f).
Proof.
  intros host_le x f. split; [reflexivity|]. split.
  - intros Hx. rewrite client_filter_run.
    destruct (filter_accepts host_le x f) eqn:E; [|reflexivity].
    exfalso. apply filter_accepts_fields in E.
    destruct E as (b0 & H0 & _ & _ & _ & _ & _ & Hxid & _).
    rewrite dhcp_xid_load, H0 in Hx. contradiction.
  - rewrite dhcp_xid_load. unfold run_filter.
    rewrite decode_client_filter, decode_without_xid_check.
    symex; finish.
Qed.

(** ** C7: the client port test *)

(** C7.  Instruction 12 loads the 16-bit field at X + offsetof(struct
    udphdr, dest), X holding the IP header length; every frame whose UDP
    destination port, read there, is not 68 is dropped. *)
Theorem C7_client_port :
  forall (host_le : bool) (x : Z) (f : list byte),
    nth_error (client_filter host_le x) 12 =
      Some (BPF_STMT (BPF_LD + BPF_H + BPF_IND) offsetof_udphdr_dest) /\
    (udp_dest f <> Some N_DHCP4_NETWORK_CLIENT_PORT ->
     run_filter (client_filter host_le x) f = Some 0).
Proof.
  intros host_le x f. split; [reflexivity|].
  intros Hp. rewrite client_filter_run.
  destruct (filter_accepts host_le x f) eqn:E; [|reflexivity].
  exfalso. apply filter_accepts_fields in E.
  destruct E as (b0 & H0 & _ & _ & _ & Hport & _).
  rewrite udp_dest_load, H0 in Hp. contradiction.
Qed.

(** ** C9: shape and totality of the filter program *)

(** C9 (counterexample).  The program has 28 instructions, not 24. *)
Lemma C9_not_24_instructions :
  List.length (client_filter true 0) = 28%nat /\ List.length (client_filter true 0) <> 24%nat.
Proof. split; [reflexivity | discriminate]. Qed.

(** C9 (amended).  For every xid and host byte order the program is a
    fixed sequence of 28 instructions whose jumps all land inside it
    (forward, so there is no loop), whose last instruction is a return and
    whose returns all return 0 or 65535; run on any frame with one step of
    fuel per instruction it stops with 0 or 65535 (a load beyond the frame
    also stops it with 0). *)
Theorem C9_filter_shape_total :
  forall (host_le : bool) (x : Z),
    List.length (client_filter host_le x) = 28%nat /\
    jumps_in_range (client_filter host_le x) = true /\
    ends_in_ret (client_filter host_le x) = true /\
    returns_0_or_all (client_filter host_le x) = true /\
    forall f, run_filter (client_filter host_le x) f = Some 0 \/
              run_filter (client_filter host_le x) f = Some 65535.
Proof.
  intros host_le x.
  split; [reflexivity|]. split; [reflexivity|].
  split; [reflexivity|]. split; [reflexivity|].
  intros f. rewrite client_filter_run.
  destruct (filter_accepts host_le x f); [right | left]; reflexivity.
Qed.

(** ** The socket constructor *)

Import Sock.

(** Run the constructor symbolically: one case per answer of the kernel. *)
Ltac sock_cases :=
  unfold n_dhcp4_network_client_packet_socket_new, bind, sys, ret, get_errno,
    store_sockfdp;
  repeat (cbn [log errno sockfdp];
          match goal with
          | |- context [?K ?l ?c] =>
              lazymatch type of K with
              | kernel => destruct (K l c) as [?r ?e] eqn:?
              end
          | |- context [if ?b then _ else _] =>
              lazymatch b with
              | context [if _ then _ else _] => fail
              | _ => destruct b eqn:?
              end
          end).

Ltac last_of L :=
  lazymatch L with
  | [?x] => x
  | _ :: ?t => last_of t
  end.


(** Facts on the kernel's answers, once the branch is known. *)
Ltac kernel_facts Hpos :=
  repeat match goal with
  | E : ?K ?l ?c = (?r0, ?e0) |- _ =>
      let P := fresh "P" in
      pose proof (Hpos l c) as P; rewrite E in P; cbn [fst snd] in P; clear E
  | E : (_ <? _) = true |- _ => apply Z.ltb_lt in E
  | E : (_ <? _) = false |- _ => apply Z.ltb_ge in E
  | P : ?a -> _, E : ?a |- _ => specialize (P E)
  end.

(** C3.  The constructor returns 0 exactly when its four calls (socket,
    filter attach, PACKET_AUXDATA, bind) all succeed; otherwise the last
    call it made is the first one that failed, and it returns the negated
    errno of that call, a negative number (errno being positive). *)
Theorem C3_result_codes :
  forall (K : kernel) (host_le : bool) (ifindex xid : Z) (w w' : world) (r : Z),
    (forall l c, fst (K l c) < 0 -> 0 < snd (K l c)) ->
    n_dhcp4_network_client_packet_socket_new K host_le ifindex xid w = (r, w') ->
    exists evs, log w' = log w ++ evs /\
      (r = 0 <-> List.length (syscalls evs) = 4%nat /\
                 Forall (fun '(_, rc, _) => 0 <= rc) (syscalls evs)) /\
      (r <> 0 -> exists pre c rc e,
         syscalls evs = pre ++ [(c, rc, e)] /\
         Forall (fun '(_, rc', _) => 0 <= rc') pre /\
         rc < 0 /\ r = - e /\ r < 0).
Proof.
  intros K host_le ifindex xid w w' r Hpos.
  sock_cases; intros H; injection H as <- <-; cbn [log];
    rewrite <- ?app_assoc; cbn [app]; eexists; (split; [reflexivity|]);
    cbn [syscalls List.length]; kernel_facts Hpos.
  1-4: split;
      [ split;
        [ intros; lia
        | intros [_ HF]; exfalso;
          lazymatch type of HF with
          | Forall _ ?L =>
              let x := last_of L in
              rewrite Forall_forall in HF;
              assert (Hin : In x L) by (cbn; auto 10);
              specialize (HF x Hin); cbn in HF; lia
          end ]
      | intros _;
        match goal with
        | |- exists pre c rc e0, ?L = _ /\ _ =>
            let x := last_of L in
            lazymatch x with
            | (?c, ?rc, ?e0) => exists (removelast L), c, rc, e0
            end
        end;
        split; [reflexivity|]; cbn [removelast];
        split; [repeat constructor; cbn; lia | lia] ].
  split;
    [ split; [intros _; split; [reflexivity | repeat constructor; cbn; lia]
             | reflexivity]
    | intros Hr; congruence ].
Qed.

(** C4 (code_bug).  The constructor never calls close: whatever the
    kernel answers, no Close event is among the events it adds.  When the
    socket is created (descriptor 3) and attaching the filter fails with
    EPERM, it returns -1 and descriptor 3 stays open. *)
Theorem C4_socket_not_closed :
  (forall (K : kernel) (host_le : bool) (ifindex xid : Z) (w : world),
     exists evs,
       log (snd (n_dhcp4_network_client_packet_socket_new K host_le ifindex xid w)) =
         log w ++ evs /\
       forallb (fun ev => negb (is_close ev)) evs = true) /\
  run_attach_fails =
    (-1, mk_world
           [Syscall (Socket AF_PACKET SOCK_DGRAM 0) 3 0;
            Syscall (SetsockoptFprog 3 SOL_SOCKET SO_ATTACH_FILTER
                       (mk_sock_fprog 28 (client_filter true 0x12345678))) (-1) 1]
           1 (-1)).
Proof.
  split; [|reflexivity].
  intros K host_le ifindex xid w.
  sock_cases; cbn [snd log]; rewrite <- ?app_assoc; cbn [app];
    eexists; split; reflexivity.
Qed.

(** C6.  When the constructor reports success it has, in this order,
    created an AF_PACKET/SOCK_DGRAM socket, attached the 28-instruction
    filter, enabled PACKET_AUXDATA on it, bound it to the given ifindex
    with protocol htons(ETH_P_IP), and stored the descriptor in
    *sockfdp; nothing else. *)
Theorem C6_calls_in_order :
  forall (K : kernel) (host_le : bool) (ifindex xid : Z) (w w' : world) (r : Z),
    (forall l c, fst (K l c) < 0 -> 0 < snd (K l c)) ->
    n_dhcp4_network_client_packet_socket_new K host_le ifindex xid w = (r, w') ->
    r = 0 ->
    exists fd r2 r3 r4 e1 e2 e3 e4,
      log w' = log w ++
        [Syscall (Socket AF_PACKET SOCK_DGRAM 0) fd e1;
         Syscall (SetsockoptFprog fd SOL_SOCKET SO_ATTACH_FILTER
                    (mk_sock_fprog 28 (client_filter host_le xid))) r2 e2;
         Syscall (SetsockoptInt fd SOL_PACKET PACKET_AUXDATA 1) r3 e3;
         Syscall (Bind fd (mk_sockaddr_ll AF_PACKET (htons host_le ETH_P_IP) ifindex)) r4 e4;
         StoreSockfdp fd].
Proof.
  intros K host_le ifindex xid w w' r Hpos.
  sock_cases; intros H Hr; injection H as <- <-; kernel_facts Hpos; try lia.
  cbn [log]. rewrite <- ?app_assoc. cbn [app].
  do 8 eexists. reflexivity.
Qed.

(** C8.  On a failure the out-pointer is never written and *sockfdp keeps
    its value; on success it is written once, as the last effect, with the
    descriptor the socket call returned. *)
Theorem C8_sockfdp_frame :
  forall (K : kernel) (host_le : bool) (ifindex xid : Z) (w w' : world) (r : Z),
    (forall l c, fst (K l c) < 0 -> 0 < snd (K l c)) ->
    n_dhcp4_network_client_packet_socket_new K host_le ifindex xid w = (r, w') ->
    exists evs, log w' = log w ++ evs /\
      (r <> 0 -> sockfdp w' = sockfdp w /\
                 forallb (fun ev => negb (is_store ev)) evs = true) /\
      (r = 0 -> exists pre fd e,
         evs = pre ++ [StoreSockfdp fd] /\
         forallb (fun ev => negb (is_store ev)) pre = true /\
         sockfdp w' = fd /\
         In (Syscall (Socket AF_PACKET SOCK_DGRAM 0) fd e) pre).
Proof.
  intros K host_le ifindex xid w w' r Hpos.
  sock_cases; intros H; injection H as <- <-; kernel_facts Hpos;
    cbn [log sockfdp]; rewrite <- ?app_assoc; cbn [app];
    eexists; (split; [reflexivity|]).
  1-4: split; [intros _; split; reflexivity | intros; lia].
  split; [intros; congruence|].
  intros _.
  match goal with
  | |- exists pre fd e, ?L = _ /\ _ =>
      lazymatch last_of L with
      | StoreSockfdp ?fd => exists (removelast L), fd
      end
  end.
  eexists. split; [reflexivity|]. cbn [removelast].
  split; [reflexivity|]. split; [reflexivity|]. cbn. left. reflexivity.
Qed.

Import Hex.

Example parse_hexstr_ex1 :
  parse_hexstr malloc_zero "1aF"%string = (0, Some ([0x1a; 0x0f], 2%nat)).
Proof. reflexivity. Qed.
Example parse_hexstr_ex2 :
  parse_hexstr malloc_zero "zz7"%string = (0, Some ([0x00; 0x07], 2%nat)).
Proof. reflexivity. Qed.

(** ** C10: parse_hexstr *)

Lemma set_nth_length l n v : List.length (set_nth l n v) = List.length l.
Proof.
  revert n; induction l as [|h t IH]; intros [|n]; cbn; auto.
Qed.

Lemma nth_set_nth_eq l n v d :
  (n < List.length l)%nat -> nth n (set_nth l n v) d = v.
Proof.
  revert n; induction l as [|h t IH]; intros [|n] Hn; cbn in *; try lia; auto.
  apply IH. lia.
Qed.

Lemma nth_set_nth_neq l n m v d :
  n <> m -> nth m (set_nth l n v) d = nth m l d.
Proof.
  revert n m; induction l as [|h t IH]; intros [|n] [|m] Hnm; cbn; auto; try lia.
Qed.

Lemma hex_value_range c : 0 <= hex_value c < 16.
Proof.
  unfold hex_value.
  repeat match goal with
  | |- context [if ?b then _ else _] => destruct b eqn:?
  end;
  repeat match goal with
  | H : (_ && _) = true |- _ => apply andb_true_iff in H; destruct H
  | H : (_ <=? _) = true |- _ => apply Z.leb_le in H
  end; lia.
Qed.

(** out[i / 2] <<= 4; out[i / 2] |= v on a nibble: the two nibbles side by
    side. *)
Lemma nibbles_combine a b :
  0 <= a < 16 -> 0 <= b < 16 -> u8 (Z.lor (u8 (Z.shiftl a 4)) b) = a * 16 + b.
Proof.
  intros Ha Hb.
  assert (Hall : forallb (fun a => forallb (fun b =>
                   u8 (Z.lor (u8 (Z.shiftl a 4)) b) =? a * 16 + b)
                   (map Z.of_nat (seq 0 16))) (map Z.of_nat (seq 0 16)) = true)
    by reflexivity.
  rewrite forallb_forall in Hall.
  assert (Ina : In a (map Z.of_nat (seq 0 16))).
  { apply in_map_iff. exists (Z.to_nat a). split; [lia|]. apply in_seq. lia. }
  specialize (Hall a Ina). rewrite forallb_forall in Hall.
  assert (Inb : In b (map Z.of_nat (seq 0 16))).
  { apply in_map_iff. exists (Z.to_nat b). split; [lia|]. apply in_seq. lia. }
  specialize (Hall b Inb). apply Z.eqb_eq in Hall. exact Hall.
Qed.

Lemma hex_loop_inv s m :
  forall fuel i out,
    List.length out = m ->
    (i + fuel <= 2 * m)%nat ->
    (forall k, (k < m)%nat -> (2 * k < i)%nat -> nth k out 0 = partial_byte s i k) ->
    List.length (hex_loop s i fuel out) = m /\
    forall k, (k < m)%nat -> (2 * k < i + fuel)%nat ->
      nth k (hex_loop s i fuel out) 0 = partial_byte s (i + fuel) k.
Proof.
  induction fuel as [|fuel IH]; intros i out Hlen Hle Hinv.
  - cbn. rewrite Nat.add_0_r. split; auto.
  - cbn [hex_loop].
    replace (i + S fuel)%nat with (S i + fuel)%nat by lia.
    apply IH; [| lia |].
    + destruct (Nat.odd i); rewrite set_nth_length; auto.
    + intros kk Hk Hki.
      destruct (Nat.Even_or_Odd i) as [[j Hj] | [j Hj]]; subst i.
      * (* even: out[j] = v *)
        rewrite Nat.odd_even.
        replace (2 * j / 2)%nat with j by (apply (Nat.div_unique _ _ _ 0); lia).
        destruct (Nat.eq_dec kk j) as [-> | Hne].
        -- rewrite nth_set_nth_eq by lia.
           unfold partial_byte. destruct (Nat.ltb_spec (2 * j + 1) (S (2 * j))); [lia|].
           reflexivity.
        -- rewrite nth_set_nth_neq by lia. rewrite Hinv by lia.
           unfold partial_byte.
           destruct (Nat.ltb_spec (2 * kk + 1) (2 * j)),
             (Nat.ltb_spec (2 * kk + 1) (S (2 * j))); try lia; reflexivity.
      * (* odd: out[j] <<= 4; out[j] |= v *)
        rewrite Nat.odd_odd.
        replace ((2 * j + 1) / 2)%nat with j by (apply (Nat.div_unique _ _ _ 1); lia).
        destruct (Nat.eq_dec kk j) as [-> | Hne].
        -- rewrite nth_set_nth_eq by lia. rewrite Hinv by lia.
           unfold partial_byte.
           destruct (Nat.ltb_spec (2 * j + 1) (2 * j + 1)); [lia|].
           destruct (Nat.ltb_spec (2 * j + 1) (S (2 * j + 1))); [|lia].
           replace (2 * j + 1)%nat with (S (2 * j)) at 3 by lia.
           apply nibbles_combine; apply hex_value_range.
        -- rewrite nth_set_nth_neq by lia. rewrite Hinv by lia.
           unfold partial_byte.
           destruct (Nat.ltb_spec (2 * kk + 1) (2 * j + 1)),
             (Nat.ltb_spec (2 * kk + 1) (S (2 * j + 1))); try lia; reflexivity.
Qed.

(** C10.  Whenever malloc grants the (strlen(s)+1)/2 bytes, parse_hexstr
    returns 0 and hands back a buffer of exactly that many bytes, byte k
    being the characters 2k and 2k+1 decoded big nibble first, or the
    last character's nibble alone for an odd length; a character outside
    [0-9a-fA-F] has nibble 0. *)
Theorem C10_parse_hexstr :
  forall (malloc : nat -> option (list Z)) (s : string) (buf : list Z),
    malloc ((strlen s + 1) / 2)%nat = Some buf ->
    List.length buf = ((strlen s + 1) / 2)%nat ->
    (forall c, is_hex_char c = false -> hex_value c = 0) /\
    exists out,
      parse_hexstr malloc s = (0, Some (out, ((strlen s + 1) / 2)%nat)) /\
      List.length out = ((strlen s + 1) / 2)%nat /\
      forall k, (k < List.length out)%nat -> nth k out 0 = decoded_byte s k.
Proof.
  intros malloc s buf Hm Hlen. split.
  - intros c. unfold is_hex_char, hex_value.
    destruct ((48 <=? c) && (c <=? 57)), ((97 <=? c) && (c <=? 102)),
      ((65 <=? c) && (c <=? 70)); cbn; congruence.
  - unfold parse_hexstr. rewrite Hm.
    set (m := ((strlen s + 1) / 2)%nat) in *.
    assert (Hm2 : (strlen s <= 2 * m /\ 2 * m <= strlen s + 1)%nat).
    { subst m. pose proof (Nat.div_mod (strlen s + 1) 2 ltac:(lia)).
      pose proof (Nat.mod_upper_bound (strlen s + 1) 2 ltac:(lia)). lia. }
    destruct (hex_loop_inv s m (strlen s) 0 buf Hlen ltac:(lia)
                ltac:(intros; lia)) as [Hl Hv].
    exists (hex_loop s 0 (strlen s) buf). split; [reflexivity|]. split; [exact Hl|].
    intros k Hk. rewrite Hl in Hk. rewrite Hv by lia.
    reflexivity.
Qed.

(** ** Witnesses: the theorems with hypotheses, at concrete inputs *)

Lemma C3_result_codes_witness :
  let r := fst run_attach_fails in
  let w' := snd run_attach_fails in
  exists evs, log w' = log world0 ++ evs /\
    (r = 0 <-> List.length (syscalls evs) = 4%nat /\
               Forall (fun '(_, rc, _) => 0 <= rc) (syscalls evs)) /\
    (r <> 0 -> exists pre c rc e,
       syscalls evs = pre ++ [(c, rc, e)] /\
       Forall (fun '(_, rc', _) => 0 <= rc') pre /\
       rc < 0 /\ r = - e /\ r < 0).
Proof.
  intros r w'.
  apply (C3_result_codes kernel_attach_fails true 1 0x12345678 world0 w' r).
  - intros l c. destruct c; cbn; lia.
  - reflexivity.
Defined.

Lemma C6_calls_in_order_witness :
  let w' := snd run_ok in
  exists fd r2 r3 r4 e1 e2 e3 e4,
    log w' = log world0 ++
      [Syscall (Socket AF_PACKET SOCK_DGRAM 0) fd e1;
       Syscall (SetsockoptFprog fd SOL_SOCKET SO_ATTACH_FILTER
                  (mk_sock_fprog 28 (client_filter true 0x12345678))) r2 e2;
       Syscall (SetsockoptInt fd SOL_PACKET PACKET_AUXDATA 1) r3 e3;
       Syscall (Bind fd (mk_sockaddr_ll AF_PACKET (htons true ETH_P_IP) 1)) r4 e4;
       StoreSockfdp fd].
Proof.
  intros w'.
  apply (C6_calls_in_order kernel_ok true 1 0x12345678 world0 w' (fst run_ok)).
  - intros l c. destruct c; cbn; lia.
  - reflexivity.
  - reflexivity.
Defined.

Lemma C8_sockfdp_frame_witness :
  let r := fst run_ok in
  let w' := snd run_ok in
  exists evs, log w' = log world0 ++ evs /\
    (r <> 0 -> sockfdp w' = sockfdp world0 /\
               forallb (fun ev => negb (is_store ev)) evs = true) /\
    (r = 0 -> exists pre fd e,
       evs = pre ++ [StoreSockfdp fd] /\
       forallb (fun ev => negb (is_store ev)) pre = true /\
       sockfdp w' = fd /\
       In (Syscall (Socket AF_PACKET SOCK_DGRAM 0) fd e) pre).
Proof.
  intros r w'.
  apply (C8_sockfdp_frame kernel_ok true 1 0x12345678 world0 w' r).
  - intros l c. destruct c; cbn; lia.
  - reflexivity.
Defined.

Lemma C10_parse_hexstr_witness :
  (forall c, is_hex_char c = false -> hex_value c = 0) /\
  exists out,
    parse_hexstr malloc_zero "1aF"%string = (0, Some (out, ((strlen "1aF" + 1) / 2)%nat)) /\
    List.length out = ((strlen "1aF" + 1) / 2)%nat /\
    forall k, (k < List.length out)%nat -> nth k out 0 = decoded_byte "1aF" k.
Proof.
  apply (C10_parse_hexstr malloc_zero "1aF"%string [0; 0]); reflexivity.
Defined.

(* ================================================================== *)
(** * Further properties of the code *)

(* ------------------------------------------------------------------ *)
(** ** The kernel filter: what it drops and what it reads *)

Module FilterMore.
Import Bpf Net FilterSem.

Lemma load_byte_range f o v : load_byte f o = Some v -> 0 <= v < 256.
Proof.
  unfold load_byte. destruct (o <? 0); [discriminate|].
  destruct (nth_error f (Z.to_nat o)) as [b|]; [|discriminate].
  intros H; injection H as <-. pose proof (Byte.to_N_bounded b). lia.
Qed.

Lemma load_byte_in_frame f o v : load_byte f o = Some v -> 0 <= o < frame_len f.
Proof.
  unfold load_byte, frame_len. destruct (o <? 0) eqn:Ho; [discriminate|].
  apply Z.ltb_ge in Ho.
  destruct (nth_error f (Z.to_nat o)) eqn:Hn; [|discriminate].
  intros _. assert (nth_error f (Z.to_nat o) <> None) by congruence.
  apply nth_error_Some in H. lia.
Qed.

Lemma load_word_in_frame f o v : load_word f o = Some v -> 0 <= o /\ o + 4 <= frame_len f.
Proof.
  unfold load_word, load_half.
  destruct (load_byte f o) eqn:H0, (load_byte f (o + 1)), (load_byte f (o + 2)),
    (load_byte f (o + 2 + 1)) eqn:H3; try discriminate.
  intros _. apply load_byte_in_frame in H0. apply load_byte_in_frame in H3. lia.
Qed.

(** A frame the filter does not accept is dropped. *)
Lemma dropped_unless_accepted host_le xid f :
  filter_accepts host_le xid f = false -> run_filter (client_filter host_le xid) f = Some 0.
Proof. intros H. rewrite client_filter_run, H. reflexivity. Qed.

Lemma dhcp_op_load f :
  dhcp_op f = match load_byte f 0 with
              | Some b => load_byte f (4 * Z.land b 15 + 8 + 0)
              | None => None
              end.
Proof.
  unfold dhcp_op, udp_field, ip_hdr_len.
  destruct (load_byte f 0); [|reflexivity].
  cbn -[load_byte Z.mul Z.land Z.add]. f_equal.
  unfold sizeof_udphdr, offsetof_NDhcp4Header_op. lia.
Qed.

Lemma dhcp_magic_load f :
  dhcp_magic f = match load_byte f 0 with
                 | Some b => load_word f (4 * Z.land b 15 + 8 + 236)
                 | None => None
                 end.
Proof.
  unfold dhcp_magic, udp_field, ip_hdr_len.
  destruct (load_byte f 0); [|reflexivity].
  cbn -[load_word Z.mul Z.land Z.add]. f_equal.
  unfold sizeof_udphdr, offsetof_NDhcp4Message_magic. lia.
Qed.

(** The mask of the fragment test on either host. *)
Lemma frag_mask_value host_le :
  ntohs host_le (Z.lor IP_MF IP_OFFMASK) = if host_le then 0xff3f else 0x3fff.
Proof. destruct host_le; reflexivity. Qed.

(** Replacing one byte of the frame. *)
Lemma set_byte_length f p b : List.length (set_byte f p b) = List.length f.
Proof. revert p; induction f as [|c f IH]; intros [|p]; cbn; auto. Qed.

Lemma nth_error_set_byte_neq f p q b :
  p <> q -> nth_error (set_byte f p b) q = nth_error f q.
Proof.
  revert p q; induction f as [|c f IH]; intros [|p] [|q] H; cbn; auto; try lia.
Qed.

Lemma nth_error_set_byte_eq f p b c :
  nth_error f p = Some c -> nth_error (set_byte f p b) p = Some b.
Proof.
  revert p; induction f as [|c' f IH]; intros [|p] H; cbn in *; try discriminate; auto.
Qed.

Lemma load_byte_set_byte_neq f p b q :
  Z.of_nat p <> q -> load_byte (set_byte f p b) q = load_byte f q.
Proof.
  intros H. unfold load_byte. destruct (q <? 0) eqn:Hq; [reflexivity|].
  apply Z.ltb_ge in Hq.
  rewrite nth_error_set_byte_neq by lia. reflexivity.
Qed.

Lemma load_byte_set_byte_eq f p b v :
  load_byte f (Z.of_nat p) = Some v ->
  load_byte (set_byte f p b) (Z.of_nat p) = Some (Z.of_N (Byte.to_N b)).
Proof.
  unfold load_byte. rewrite Nat2Z.id.
  destruct (Z.of_nat p <? 0); [discriminate|].
  destruct (nth_error f p) as [c|] eqn:Hn; [|discriminate].
  rewrite (nth_error_set_byte_eq f p b c Hn). reflexivity.
Qed.

Lemma load_half_set_byte f p b q :
  Z.of_nat p <> q -> Z.of_nat p <> q + 1 ->
  load_half (set_byte f p b) q = load_half f q.
Proof.
  intros H1 H2. unfold load_half.
  rewrite !load_byte_set_byte_neq by lia. reflexivity.
Qed.

Lemma load_word_set_byte f p b q :
  Z.of_nat p <> q -> Z.of_nat p <> q + 1 -> Z.of_nat p <> q + 2 -> Z.of_nat p <> q + 3 ->
  load_word (set_byte f p b) q = load_word f q.
Proof.
  intros H1 H2 H3 H4. unfold load_word.
  rewrite !load_half_set_byte by lia. reflexivity.
Qed.

(** The acceptance test on a frame whose byte [p] is replaced, when the
    other bytes it reads are not byte [p]. *)
Lemma filter_accepts_set_byte host_le xid f p b b0 :
  load_byte f 0 = Some b0 ->
  Z.of_nat p <> 0 -> Z.of_nat p <> 9 ->
  (forall k, In k [2; 3; 8; 12; 13; 14; 15; 244; 245; 246; 247] ->
     Z.of_nat p <> 4 * Z.land b0 15 + k) ->
  filter_accepts host_le xid (set_byte f p b) =
  match load_byte f 9, load_byte (set_byte f p b) 6 with
  | Some pr, Some fb =>
    let ihl := 4 * Z.land b0 15 in
    (pr =? 17) && (Z.land fb (ntohs host_le 0x3fff) =? 0)
    && (248 <=? u32 (frame_len f - ihl))
    && match load_half f (ihl + 2), load_byte f (ihl + 8 + 0),
             load_word f (ihl + 8 + 4), load_word f (ihl + 8 + 236) with
       | Some port, Some op, Some xi, Some mg =>
         (port =? 68) && (op =? 2) && (xi =? xid) && (mg =? 0x63825363)
       | _, _, _, _ => false
       end
  | _, _ => false
  end.
Proof.
  intros H0 Hp0 Hp9 Hro.
  unfold filter_accepts, frame_len. rewrite set_byte_length.
  rewrite (load_byte_set_byte_neq f p b 9), (load_byte_set_byte_neq f p b 0), H0 by lia.
  pose proof (Hro 2 ltac:(cbn; tauto)). pose proof (Hro 3 ltac:(cbn; tauto)).
  pose proof (Hro 8 ltac:(cbn; tauto)). pose proof (Hro 12 ltac:(cbn; tauto)).
  pose proof (Hro 13 ltac:(cbn; tauto)). pose proof (Hro 14 ltac:(cbn; tauto)).
  pose proof (Hro 15 ltac:(cbn; tauto)). pose proof (Hro 244 ltac:(cbn; tauto)).
  pose proof (Hro 245 ltac:(cbn; tauto)). pose proof (Hro 246 ltac:(cbn; tauto)).
  pose proof (Hro 247 ltac:(cbn; tauto)).
  rewrite (load_half_set_byte f p b (4 * Z.land b0 15 + 2)),
    (load_byte_set_byte_neq f p b (4 * Z.land b0 15 + 8 + 0)),
    (load_word_set_byte f p b (4 * Z.land b0 15 + 8 + 4)),
    (load_word_set_byte f p b (4 * Z.land b0 15 + 8 + 236)) by lia.
  destruct (load_byte f 9), (load_byte (set_byte f p b) 6); reflexivity.
Qed.

Lemma filter_accepts_b0 host_le xid f b0 :
  load_byte f 0 = Some b0 ->
  filter_accepts host_le xid f =
  match load_byte f 9, load_byte f 6 with
  | Some pr, Some fb =>
    let ihl := 4 * Z.land b0 15 in
    (pr =? 17) && (Z.land fb (ntohs host_le 0x3fff) =? 0)
    && (248 <=? u32 (frame_len f - ihl))
    && match load_half f (ihl + 2), load_byte f (ihl + 8 + 0),
             load_word f (ihl + 8 + 4), load_word f (ihl + 8 + 236) with
       | Some port, Some op, Some xi, Some mg =>
         (port =? 68) && (op =? 2) && (xi =? xid) && (mg =? 0x63825363)
       | _, _, _, _ => false
       end
  | _, _ => false
  end.
Proof.
  intros H0. unfold filter_accepts. rewrite H0.
  destruct (load_byte f 9), (load_byte f 6); reflexivity.
Qed.

End FilterMore.

Import FilterMore.

(** Frames that are not UDP are dropped: the first test of the program
    compares the IP protocol byte with IPPROTO_UDP. *)
Theorem filter_drops_non_udp :
  forall (host_le : bool) (xid : Z) (f : list byte),
    ip_protocol f <> Some IPPROTO_UDP ->
    run_filter (client_filter host_le xid) f = Some 0.
Proof.
  intros host_le xid f Hp.
  destruct (filter_accepts host_le xid f) eqn:E; [|apply dropped_unless_accepted, E].
  exfalso. apply filter_accepts_fields in E.
  destruct E as (b0 & _ & H9 & _). apply Hp, H9.
Qed.

(** A frame shorter than its IP header plus the UDP header plus the 240
    bytes of the BOOTP header and the magic cookie is dropped, whatever the
    IP header length field says. *)
Theorem filter_drops_short_frames :
  forall (host_le : bool) (xid : Z) (f : list byte) (b0 : Z),
    load_byte f 0 = Some b0 ->
    frame_len f < 4 * Z.land b0 15 + sizeof_udphdr + sizeof_NDhcp4Message ->
    run_filter (client_filter host_le xid) f = Some 0.
Proof.
  intros host_le xid f b0 H0 Hlen.
  destruct (filter_accepts host_le xid f) eqn:E; [|apply dropped_unless_accepted, E].
  exfalso. apply filter_accepts_fields in E.
  destruct E as (b0' & H0' & _ & _ & _ & _ & _ & _ & Hmg).
  rewrite H0 in H0'. injection H0' as <-.
  apply load_word_in_frame in Hmg.
  unfold sizeof_udphdr, sizeof_NDhcp4Message in Hlen. lia.
Qed.

(** A frame whose DHCP op is not BOOTREPLY, or without the magic cookie,
    read behind the IP and UDP headers, is dropped. *)
Theorem filter_drops_non_bootreply :
  forall (host_le : bool) (xid : Z) (f : list byte),
    dhcp_op f <> Some N_DHCP4_OP_BOOTREPLY \/ dhcp_magic f <> Some N_DHCP4_MESSAGE_MAGIC ->
    run_filter (client_filter host_le xid) f = Some 0.
Proof.
  intros host_le xid f Hf.
  destruct (filter_accepts host_le xid f) eqn:E; [|apply dropped_unless_accepted, E].
  exfalso. apply filter_accepts_fields in E.
  destruct E as (b0 & H0 & _ & _ & _ & _ & Hop & _ & Hmg).
  rewrite dhcp_op_load, dhcp_magic_load, H0 in Hf.
  destruct Hf as [Hf | Hf]; contradiction.
Qed.

(** The fragment test reads the first byte of frag_off (flags and the
    top five offset bits).  A frame with MF set is dropped on either
    host; on a big-endian host, where the mask is 0x3fff, a frame is
    dropped as soon as that byte is nonzero, so also when only DF (or the
    reserved bit) is set. *)
Theorem filter_fragment_byte :
  forall (host_le : bool) (xid : Z) (f : list byte) (fb : Z),
    load_byte f offsetof_iphdr_frag_off = Some fb ->
    Z.testbit fb 5 = true \/ (host_le = false /\ fb <> 0) ->
    run_filter (client_filter host_le xid) f = Some 0.
Proof.
  intros host_le xid f fb H6 Hfb.
  destruct (filter_accepts host_le xid f) eqn:E; [|apply dropped_unless_accepted, E].
  exfalso. apply filter_accepts_fields in E.
  destruct E as (b0 & _ & _ & (fb' & H6' & Hm) & _).
  unfold offsetof_iphdr_frag_off in H6. rewrite H6 in H6'. injection H6' as <-.
  pose proof (frag_mask_value host_le) as Hv. cbn in Hv. rewrite Hv in Hm.
  destruct Hfb as [Hb | [-> Hne]].
  - assert (Ht : Z.testbit (Z.land fb (if host_le then 0xff3f else 0x3fff)) 5 = true)
      by (rewrite Z.land_spec, Hb; destruct host_le; reflexivity).
    rewrite Hm in Ht. discriminate.
  - apply load_byte_range in H6.
    change 0x3fff with (Z.ones 14) in Hm. rewrite Z.land_ones in Hm by lia.
    rewrite Z.mod_small in Hm by (cbn; lia). contradiction.
Qed.

(** On a little-endian host the fragment test masks the first byte of
    frag_off with 0x3f: for a frame with an IP header of at least 20 bytes,
    DF and the reserved bit (bits 6 and 7 of that byte) never change the
    verdict. *)
Theorem filter_le_ignores_df :
  forall (xid : Z) (f : list byte) (b0 fb : Z) (b : byte),
    load_byte f 0 = Some b0 -> 5 <= Z.land b0 15 ->
    load_byte f 6 = Some fb ->
    Z.land (Z.of_N (Byte.to_N b)) 63 = Z.land fb 63 ->
    run_filter (client_filter true xid) (set_byte f 6 b) =
    run_filter (client_filter true xid) f.
Proof.
  intros xid f b0 fb b H0 Hihl H6 Hb.
  rewrite !client_filter_run. f_equal.
  apply (f_equal (fun c : bool => if c then 65535 else 0)).
  rewrite (filter_accepts_set_byte true xid f 6 b b0 H0) by
    (lia || (intros k Hk; cbn [In] in Hk; intuition (subst; lia))).
  rewrite (filter_accepts_b0 true xid f b0 H0).
  assert (H6' : load_byte (set_byte f 6 b) 6 = Some (Z.of_N (Byte.to_N b))).
  { apply (load_byte_set_byte_eq f 6 b fb H6). }
  rewrite H6', H6.
  assert (Hmask : forall v, 0 <= v < 256 -> Z.land v (ntohs true 0x3fff) = Z.land v 63).
  { intros v Hv. cbn [ntohs].
    replace v with (Z.land v (Z.ones 8)) at 1
      by (rewrite Z.land_ones by lia; apply Z.mod_small; cbn; lia).
    rewrite <- Z.land_assoc. reflexivity. }
  rewrite !Hmask, Hb.
  - reflexivity.
  - eapply load_byte_range; exact H6.
  - pose proof (Byte.to_N_bounded b). lia.
Qed.

(** The verdict depends only on the length of the frame and the bytes
    the program loads: the version/IHL byte, the first byte of frag_off,
    the protocol, and behind the IP header the UDP destination port, the
    DHCP op, the xid and the magic cookie.  Replacing any other byte (IP
    addresses, checksums, the UDP source port, the client hardware
    address, ...) never changes it. *)
Theorem filter_reads_only_tested_bytes :
  forall (host_le : bool) (xid : Z) (f : list byte) (b0 : Z) (p : nat) (b : byte),
    load_byte f 0 = Some b0 ->
    ~ In (Z.of_nat p) (read_offsets (4 * Z.land b0 15)) ->
    run_filter (client_filter host_le xid) (set_byte f p b) =
    run_filter (client_filter host_le xid) f.
Proof.
  intros host_le xid f b0 p b H0 Hp.
  unfold read_offsets in Hp; cbn [In] in Hp.
  rewrite !client_filter_run. f_equal.
  apply (f_equal (fun c : bool => if c then 65535 else 0)).
  rewrite (filter_accepts_set_byte host_le xid f p b b0 H0) by
    (lia || (intros k Hk; cbn [In] in Hk; intuition (subst; lia))).
  rewrite (filter_accepts_b0 host_le xid f b0 H0).
  rewrite load_byte_set_byte_neq by lia. reflexivity.
Qed.

(* ------------------------------------------------------------------ *)
(** ** parse_hexstr: what the result depends on *)

Module HexMore.
Import Hex.

(** The loop over the whole input, from C10's invariant. *)
Lemma hex_loop_decoded s buf :
  List.length buf = ((strlen s + 1) / 2)%nat ->
  List.length (hex_loop s 0 (strlen s) buf) = ((strlen s + 1) / 2)%nat /\
  forall k, (k < (strlen s + 1) / 2)%nat ->
    nth k (hex_loop s 0 (strlen s) buf) 0 = decoded_byte s k.
Proof.
  intros Hlen.
  set (m := ((strlen s + 1) / 2)%nat) in *.
  assert (Hm2 : (strlen s <= 2 * m /\ 2 * m <= strlen s + 1)%nat).
  { subst m. pose proof (Nat.div_mod (strlen s + 1) 2 ltac:(lia)).
    pose proof (Nat.mod_upper_bound (strlen s + 1) 2 ltac:(lia)). lia. }
  destruct (hex_loop_inv s m (strlen s) 0 buf Hlen ltac:(lia) ltac:(intros; lia))
    as [Hl Hv].
  split; [exact Hl|]. intros k Hk. rewrite Hv by lia. reflexivity.
Qed.

(** The loop only looks at the nibbles of the characters it passes. *)
Lemma hex_loop_ext s s' fuel :
  forall i out,
    (forall j, (i <= j < i + fuel)%nat -> hex_value (char_at s j) = hex_value (char_at s' j)) ->
    hex_loop s i fuel out = hex_loop s' i fuel out.
Proof.
  induction fuel as [|fuel IH]; intros i out H; cbn [hex_loop]; [reflexivity|].
  rewrite (H i) by lia. apply IH. intros j Hj. apply H. lia.
Qed.

Lemma parse_hexstr_ext malloc s s' :
  strlen s = strlen s' ->
  (forall j, (j < strlen s)%nat -> hex_value (char_at s j) = hex_value (char_at s' j)) ->
  parse_hexstr malloc s = parse_hexstr malloc s'.
Proof.
  intros Hl Hc. unfold parse_hexstr. rewrite <- Hl.
  destruct (malloc ((strlen s + 1) / 2)%nat); [|reflexivity].
  rewrite (hex_loop_ext s s' (strlen s) 0) by (intros; apply Hc; lia).
  reflexivity.
Qed.

Lemma strlen_le_length s : (strlen s <= String.length s)%nat.
Proof.
  induction s as [|c s IH]; cbn; [lia|].
  destruct (Ascii.eqb c Ascii.zero); lia.
Qed.

Lemma strlen_append_nul s t : strlen (String.append s (String Ascii.zero t)) = strlen s.
Proof.
  induction s as [|c s IH]; cbn; [reflexivity|].
  destruct (Ascii.eqb c Ascii.zero); [reflexivity|]. rewrite IH. reflexivity.
Qed.

Lemma char_at_append s u j :
  (j < String.length s)%nat -> char_at (String.append s u) j = char_at s j.
Proof. intros H. unfold char_at. rewrite <- String.append_correct1 by exact H. reflexivity. Qed.

(** Brute force over the 256 characters. *)
Lemma toupper_nul c : Ascii.eqb (toupper c) Ascii.zero = Ascii.eqb c Ascii.zero.
Proof. destruct c as [[] [] [] [] [] [] [] []]; reflexivity. Qed.

Lemma hex_value_toupper c :
  hex_value (Z.of_nat (Ascii.nat_of_ascii (toupper c))) =
  hex_value (Z.of_nat (Ascii.nat_of_ascii c)).
Proof. destruct c as [[] [] [] [] [] [] [] []]; reflexivity. Qed.

Lemma strlen_upcase s : strlen (upcase s) = strlen s.
Proof.
  induction s as [|c s IH]; cbn; [reflexivity|].
  rewrite toupper_nul, IH. reflexivity.
Qed.

Lemma get_upcase s j : String.get j (upcase s) = option_map toupper (String.get j s).
Proof.
  revert j; induction s as [|c s IH]; intros [|j]; cbn; auto.
Qed.

(** Facts on the encoder's digits. *)
Lemma forall_nibble (P : Z -> bool) :
  forallb P (map Z.of_nat (seq 0 16)) = true -> forall d, 0 <= d < 16 -> P d = true.
Proof.
  intros Hall d Hd. rewrite forallb_forall in Hall. apply Hall.
  apply in_map_iff. exists (Z.to_nat d). split; [lia|]. apply in_seq. lia.
Qed.

Lemma hex_digit_not_nul d : 0 <= d < 16 -> Ascii.eqb (hex_digit d) Ascii.zero = false.
Proof.
  intros Hd.
  apply (forall_nibble (fun d => negb (Ascii.eqb (hex_digit d) Ascii.zero))) in Hd;
    [|reflexivity].
  destruct (Ascii.eqb (hex_digit d) Ascii.zero); [discriminate | reflexivity].
Qed.

Lemma hex_value_digit d : 0 <= d < 16 -> hex_value (Z.of_nat (Ascii.nat_of_ascii (hex_digit d))) = d.
Proof.
  intros Hd.
  apply (forall_nibble (fun d => hex_value (Z.of_nat (Ascii.nat_of_ascii (hex_digit d))) =? d))
    in Hd; [|reflexivity].
  apply Z.eqb_eq in Hd. exact Hd.
Qed.

Lemma nibbles_of_byte b : 0 <= b < 256 -> 0 <= b / 16 < 16 /\ 0 <= b mod 16 < 16.
Proof. intros Hb. split; [split; [apply Z.div_pos | apply Z.div_lt_upper_bound] | apply Z.mod_pos_bound]; lia. Qed.

Lemma strlen_hex_encode bs :
  Forall (fun b => 0 <= b < 256) bs -> strlen (hex_encode bs) = (2 * List.length bs)%nat.
Proof.
  induction 1 as [|b bs Hb _ IH]; [reflexivity|].
  destruct (nibbles_of_byte b Hb) as [H1 H2].
  cbn [hex_encode strlen]. rewrite !hex_digit_not_nul by assumption.
  rewrite IH. cbn [List.length]. lia.
Qed.

Lemma get_hex_encode bs k :
  (k < List.length bs)%nat ->
  String.get (2 * k) (hex_encode bs) = Some (hex_digit (nth k bs 0 / 16)) /\
  String.get (2 * k + 1) (hex_encode bs) = Some (hex_digit (nth k bs 0 mod 16)).
Proof.
  revert k; induction bs as [|b bs IH]; intros [|k] Hk; cbn [List.length] in Hk; try lia.
  - split; reflexivity.
  - replace (2 * S k)%nat with (S (S (2 * k))) by lia.
    replace (S (S (2 * k)) + 1)%nat with (S (S (2 * k + 1))) by lia.
    cbn [String.get hex_encode nth]. apply IH. lia.
Qed.

Lemma decoded_byte_hex_encode bs k :
  Forall (fun b => 0 <= b < 256) bs -> (k < List.length bs)%nat ->
  decoded_byte (hex_encode bs) k = nth k bs 0.
Proof.
  intros Hall Hk.
  assert (Hb : 0 <= nth k bs 0 < 256).
  { rewrite Forall_forall in Hall. apply Hall. apply nth_In. exact Hk. }
  destruct (nibbles_of_byte _ Hb) as [H1 H2].
  destruct (get_hex_encode bs k Hk) as [G1 G2].
  unfold decoded_byte, char_at. rewrite strlen_hex_encode by exact Hall.
  destruct (Nat.ltb_spec (2 * k + 1) (2 * List.length bs)); [|lia].
  rewrite G1, G2, !hex_value_digit by assumption.
  pose proof (Z.div_mod (nth k bs 0) 16 ltac:(lia)). lia.
Qed.

End HexMore.

Import HexMore.

(** parse_hexstr never reads the buffer malloc hands out: every byte of it
    is written before the result is returned, so two allocators that grant
    the (strlen + 1) / 2 bytes give the same result, whatever the bytes
    they hold. *)
Theorem parse_hexstr_ignores_buffer_contents :
  forall (m1 m2 : nat -> option (list Z)) (s : string) (b1 b2 : list Z),
    m1 ((strlen s + 1) / 2)%nat = Some b1 -> m2 ((strlen s + 1) / 2)%nat = Some b2 ->
    List.length b1 = ((strlen s + 1) / 2)%nat -> List.length b2 = ((strlen s + 1) / 2)%nat ->
    parse_hexstr m1 s = parse_hexstr m2 s.
Proof.
  intros m1 m2 s b1 b2 H1 H2 L1 L2. unfold parse_hexstr. rewrite H1, H2.
  destruct (hex_loop_decoded s b1 L1) as [E1 N1].
  destruct (hex_loop_decoded s b2 L2) as [E2 N2].
  do 3 f_equal. apply nth_ext with (d := 0) (d' := 0); [congruence|].
  intros k Hk. rewrite E1 in Hk. rewrite N1, N2 by exact Hk. reflexivity.
Qed.

(** parse_hexstr reads its argument as a C string: what follows the
    first NUL never matters. *)
Theorem parse_hexstr_stops_at_nul :
  forall (malloc : nat -> option (list Z)) (s t : string),
    parse_hexstr malloc (String.append s (String Ascii.zero t)) = parse_hexstr malloc s.
Proof.
  intros malloc s t. apply parse_hexstr_ext.
  - apply strlen_append_nul.
  - intros j Hj. rewrite strlen_append_nul in Hj.
    pose proof (strlen_le_length s).
    rewrite char_at_append by lia. reflexivity.
Qed.

(** Upper and lower case digits decode alike, and so do the other
    letters (to nibble 0): parse_hexstr gives the same result on a string
    and on its upper-case version. *)
Theorem parse_hexstr_case_insensitive :
  forall (malloc : nat -> option (list Z)) (s : string),
    parse_hexstr malloc (upcase s) = parse_hexstr malloc s.
Proof.
  intros malloc s. apply parse_hexstr_ext.
  - apply strlen_upcase.
  - intros j _. unfold char_at. rewrite get_upcase.
    destruct (String.get j s) as [c|]; cbn [option_map]; [apply hex_value_toupper | reflexivity].
Qed.

(** Round trip: the hex encoding of a byte buffer, two digits per byte,
    parses back to the same buffer and length, whenever malloc grants the
    buffer. *)
Theorem parse_hexstr_hex_encode :
  forall (malloc : nat -> option (list Z)) (bs buf : list Z),
    Forall (fun b => 0 <= b < 256) bs ->
    malloc (List.length bs) = Some buf -> List.length buf = List.length bs ->
    parse_hexstr malloc (hex_encode bs) = (0, Some (bs, List.length bs)).
Proof.
  intros malloc bs buf Hall Hm Hlen.
  assert (Hn : ((strlen (hex_encode bs) + 1) / 2)%nat = List.length bs).
  { rewrite strlen_hex_encode by exact Hall.
    symmetry. apply (Nat.div_unique _ _ _ 1); lia. }
  unfold parse_hexstr. rewrite Hn, Hm.
  rewrite <- Hn in Hlen.
  destruct (hex_loop_decoded (hex_encode bs) buf Hlen) as [E N].
  rewrite Hn in E, N.
  do 3 f_equal. apply nth_ext with (d := 0) (d' := 0); [congruence|].
  intros k Hk. rewrite E in Hk. rewrite N by exact Hk.
  apply decoded_byte_hex_encode; assumption.
Qed.

(** Witnesses: the hypotheses of the filter and parser properties hold
    on concrete inputs. *)

Lemma filter_drops_non_udp_witness :
  run_filter (client_filter true 0x12345678) (repeat x00 300) = Some 0.
Proof.
  apply (filter_drops_non_udp true 0x12345678).
  intros H. vm_compute in H. discriminate H.
Defined.

Lemma filter_drops_short_frames_witness :
  run_filter (client_filter true 0x12345678) (firstn 267 (test_frame x00 0x12345678)) = Some 0.
Proof.
  apply (filter_drops_short_frames true 0x12345678 _ 69).
  - vm_compute. reflexivity.
  - vm_compute. reflexivity.
Defined.

Lemma filter_drops_non_bootreply_witness :
  run_filter (client_filter false 0x12345678) (repeat x00 300) = Some 0.
Proof.
  apply (filter_drops_non_bootreply false 0x12345678).
  left. intros H. vm_compute in H. discriminate H.
Defined.

Lemma filter_fragment_byte_witness :
  run_filter (client_filter true 0x12345678) (set_byte (test_frame x00 0x12345678) 6 x20) = Some 0.
Proof.
  apply (filter_fragment_byte true 0x12345678 _ 32).
  - vm_compute. reflexivity.
  - left. reflexivity.
Defined.

Lemma filter_le_ignores_df_witness :
  run_filter (client_filter true 0x12345678) (set_byte (test_frame x00 0x12345678) 6 x40) =
  run_filter (client_filter true 0x12345678) (test_frame x00 0x12345678).
Proof.
  apply (filter_le_ignores_df 0x12345678 _ 69 0 x40).
  - vm_compute. reflexivity.
  - vm_compute. discriminate.
  - vm_compute. reflexivity.
  - vm_compute. reflexivity.
Defined.

Lemma filter_reads_only_tested_bytes_witness :
  run_filter (client_filter false 0x12345678) (set_byte (test_frame x00 0x12345678) 12 xff) =
  run_filter (client_filter false 0x12345678) (test_frame x00 0x12345678).
Proof.
  apply (filter_reads_only_tested_bytes false 0x12345678 _ 69).
  - vm_compute. reflexivity.
  - intros H. vm_compute in H. intuition discriminate.
Defined.

Lemma parse_hexstr_ignores_buffer_contents_witness :
  parse_hexstr (fun n => Some (repeat 0 n)) "0a1B"%string =
  parse_hexstr (fun n => Some (repeat 7 n)) "0a1B"%string.
Proof.
  apply (parse_hexstr_ignores_buffer_contents _ _ _ (repeat 0 2) (repeat 7 2));
    reflexivity.
Defined.

Lemma parse_hexstr_hex_encode_witness :
  parse_hexstr (fun n => Some (repeat 0 n)) (hex_encode [0x12; 0xab; 0]) =
  (0, Some ([0x12; 0xab; 0], 3%nat)).
Proof.
  apply (parse_hexstr_hex_encode (fun n => Some (repeat 0 n)) [0x12; 0xab; 0] [0; 0; 0]).
  - repeat constructor; lia.
  - reflexivity.
  - reflexivity.
Defined.


(* ------------------------------------------------------------------ *)
(** ** The test client: ownership, loops and exit codes *)

Module RunnerMore.
Import Runner.

Lemma existsb_inert x l : forallb inert l = true -> existsb (releases x) l = false.
Proof.
  induction l as [|ev l IH]; cbn; [reflexivity|].
  intros H. apply andb_prop in H as [H1 H2]. rewrite IH by exact H2.
  unfold inert in H1. unfold releases.
  destruct (acquired ev), (released ev); try discriminate; reflexivity.
Qed.

Lemma unreleased_inert_mid a m b :
  forallb inert m = true -> unreleased (a ++ m ++ b) = unreleased (a ++ b).
Proof.
  intros Hm. induction a as [|ev a IH]; cbn [app unreleased].
  - induction m as [|e m IHm]; [reflexivity|].
    cbn in Hm. apply andb_prop in Hm as [H1 H2].
    cbn [app unreleased]. unfold inert in H1.
    destruct (acquired e); [discriminate|]. apply IHm, H2.
  - rewrite IH. destruct (acquired ev) as [x|]; [|reflexivity].
    rewrite !existsb_app, (existsb_inert x m Hm). reflexivity.
Qed.

Lemma unreleased_inert_end a m :
  forallb inert m = true -> unreleased (a ++ m) = unreleased a.
Proof.
  intros Hm. rewrite <- (app_nil_r m), unreleased_inert_mid by exact Hm.
  rewrite app_nil_r. reflexivity.
Qed.

Lemma unreleased_inert_mid2 a b m c :
  forallb inert m = true -> unreleased (a :: b :: m ++ c) = unreleased (a :: b :: c).
Proof. intros Hm. exact (unreleased_inert_mid [a; b] m c Hm). Qed.

Lemma unreleased_inert_end2 a b m :
  forallb inert m = true -> unreleased (a :: b :: m) = unreleased [a; b].
Proof. intros Hm. exact (unreleased_inert_end [a; b] m Hm). Qed.

Lemma unreleased_app x a b :
  In x (unreleased (a ++ b)) ->
  (In x (unreleased a) /\ existsb (releases x) b = false) \/ In x (unreleased b).
Proof.
  induction a as [|ev a IH]; cbn [app unreleased]; [tauto|].
  destruct (acquired ev) as [y|]; [|exact IH].
  rewrite existsb_app.
  destruct (existsb (releases y) a) eqn:Ha; cbn [orb].
  - intros H. destruct (IH H) as [[H1 H2]|H1]; [left|right]; auto.
  - destruct (existsb (releases y) b) eqn:Hb.
    + intros H. destruct (IH H) as [[H1 H2]|H1]; [left|right]; cbn; auto.
    + intros [<-|H]; [left; cbn; auto|].
      destruct (IH H) as [[H1 H2]|H1]; [left|right]; cbn; auto.
Qed.

Lemma unreleased_nil_app a b :
  unreleased a = [] -> unreleased b = [] -> unreleased (a ++ b) = [].
Proof.
  intros Ha Hb. destruct (unreleased (a ++ b)) as [|x l] eqn:E; [reflexivity|].
  assert (Hx : In x (unreleased (a ++ b))) by (rewrite E; left; reflexivity).
  apply unreleased_app in Hx. rewrite Ha, Hb in Hx. cbn in Hx. tauto.
Qed.

Lemma releases_refl k p v r o e :
  releases (k, p) (Call v r o e) = true -> released (Call v r o e) = Some (k, p).
Proof.
  unfold releases. destruct (released (Call v r o e)) as [[k' p']|]; [|discriminate].
  intros H. apply andb_prop in H as [H1 H2]. apply Z.eqb_eq in H2. cbn in H1, H2.
  destruct k, k'; try discriminate; subst; reflexivity.
Qed.


Lemma existsb_released x ev l :
  In ev l -> released ev = Some x -> existsb (releases x) l = true.
Proof.
  intros Hin Hr. apply existsb_exists. exists ev. split; [exact Hin|].
  unfold releases. rewrite Hr. destruct x as [[] p]; cbn; apply Z.eqb_refl.
Qed.

Lemma unreleased_app_P (P : kind * Z -> Prop) a b :
  (forall x, In x (unreleased a) -> existsb (releases x) b = false -> P x) ->
  (forall x, In x (unreleased b) -> P x) ->
  forall x, In x (unreleased (a ++ b)) -> P x.
Proof.
  intros Ha Hb x Hx. destruct (unreleased_app x a b Hx) as [[H1 H2]|H1]; auto.
Qed.

Lemma quiet_refl s : quiet s s.
Proof. split; [reflexivity|]. exists []. rewrite app_nil_r. auto. Qed.

Lemma quiet_trans s1 s2 s3 : quiet s1 s2 -> quiet s2 s3 -> quiet s1 s3.
Proof.
  intros [G1 [e1 [T1 I1]]] [G2 [e2 [T2 I2]]]. split; [congruence|].
  exists (e1 ++ e2). rewrite T2, T1, app_assoc, forallb_app, I1, I2. auto.
Qed.

Lemma quiet_step s s' evs :
  globals s' = globals s -> trace s' = trace s ++ evs -> forallb inert evs = true ->
  quiet s s'.
Proof. intros G T I. split; [exact G|]. exists evs. auto. Qed.

Lemma errno_after_set e old : e <> 0 -> errno_after e old = e.
Proof. intros H. unfold errno_after. destruct (Z.eqb_spec e 0); [lia | reflexivity]. Qed.

Ltac sym E H :=
  unfold manager_free, client_config_freep, client_probe_config_freep, free_, call_,
    bind, ret, call, get_globals, put_globals, get_errno, set_errno, crash, out_of_fuel in H;
  repeat (cbn [fst snd trace cerrno globals m_self client probe negb] in H;
    first
     [ match type of H with context [E ?l ?c] => destruct (E l c) as [[? ?] ?] eqn:? end
     | match type of H with context [if ?b then _ else _] => destruct b eqn:? end
     | match type of H with
       | context [pop_events E ?a ?b ?st] =>
           destruct (pop_events E a b st) as [[?| |] ?] eqn:?
       | context [manager_dispatch E ?a ?b ?st] =>
           destruct (manager_dispatch E a b st) as [[?| |] ?] eqn:?
       | context [pfds_loop E ?a ?b ?c ?d ?e ?st] =>
           destruct (pfds_loop E a b c d e st) as [[?| |] ?] eqn:?
       | context [poll_loop E ?a ?b ?st] =>
           destruct (poll_loop E a b st) as [[?| |] ?] eqn:?
       | context [manager_new E ?st] =>
           destruct (manager_new E st) as [[[? ?]| |] ?] eqn:?
       | context [manager_run E ?a ?b ?st] =>
           destruct (manager_run E a b st) as [[[? ?]| |] ?] eqn:?
       | context [run E ?a ?st] =>
           destruct (run E a st) as [[?| |] ?] eqn:?
       | context [parse_hexstr E ?a ?st] =>
           destruct (parse_hexstr E a st) as [[[[? ?] ?]| |] ?] eqn:?
       | context [setup_test E ?st] =>
           destruct (setup_test E st) as [[?| |] ?] eqn:?
       | context [parse_options E ?a ?st] =>
           destruct (parse_options E a st) as [[?| |] ?] eqn:?
       | context [parse_argv E ?a ?b ?st] =>
           destruct (parse_argv E a b st) as [[?| |] ?] eqn:?
       end
     | match type of H with context [match ?o with Some _ => _ | None => _ end] =>
           destruct o eqn:? end
     | match type of H with context [nth_error ?l ?i] => destruct (nth_error l i) eqn:? end ]);
  cbn [fst snd trace cerrno globals m_self client probe negb] in H;
  try discriminate H.

Ltac qstep :=
  eapply quiet_step;
    [reflexivity | cbn [trace]; rewrite <- ?app_assoc; reflexivity | reflexivity].

Ltac unrel :=
  repeat (cbn [unreleased acquired existsb releases released kind_eqb fst snd andb orb app];
    first
     [ match goal with H : (?a =? ?b) = _ |- context [?a =? ?b] => rewrite H end
     | rewrite Z.eqb_refl
     | match goal with |- context [?a =? ?b] => destruct (a =? b) eqn:? end ]);
  cbn [unreleased acquired existsb releases released kind_eqb fst snd andb orb app].

Ltac eqbs :=
  repeat match goal with
   | H : negb _ = true |- _ => apply negb_true_iff in H
   | H : negb _ = false |- _ => apply negb_false_iff in H
   | H : (_ =? _) = true |- _ => apply Z.eqb_eq in H
   | H : (_ =? _) = false |- _ => apply Z.eqb_neq in H
   | H : (_ <? _) = true |- _ => apply Z.ltb_lt in H
   | H : (_ <? _) = false |- _ => apply Z.ltb_ge in H
   end.

Lemma pop_events_spec E fuel cl s r s' :
  pop_events E fuel cl s = (Done r, s') ->
  quiet s s' /\
  exists pre out e, trace s' = trace s ++ pre ++ [Call (ClientPopEvent cl) r out e] /\
    (r = 0 -> out = 0).
Proof.
  revert s; induction fuel as [|fuel IH]; intros s H; cbn [pop_events] in H.
  - discriminate H.
  - sym E H; injection H as <- <-.
    + split; [qstep|].
      exists []; do 2 eexists. split; [reflexivity|]. eqbs. lia.
    + eqbs. subst. split; [qstep|].
      exists []; do 2 eexists. split; [reflexivity|]. intros _. reflexivity.
    + match goal with Hp : pop_events _ _ _ _ = _ |- _ =>
        destruct (IH _ Hp) as [Q [pre [out [e [T Ho]]]]] end.
      split.
      * eapply quiet_trans; [|exact Q]. qstep.
      * eexists (_ :: pre), out, e. split; [|exact Ho].
        rewrite T. cbn [trace]. rewrite <- app_assoc. reflexivity.
Qed.

Lemma manager_dispatch_spec E fuel mg s r s' :
  manager_dispatch E fuel mg s = (Done r, s') ->
  quiet s s' /\
  exists pre c out e, trace s' = trace s ++ pre ++ [Call c r out e] /\
    ((c = ClientDispatch (client mg) /\ r <> 0) \/
     (c = ClientPopEvent (client mg) /\ (r = 0 -> out = 0))).
Proof.
  intros H. unfold manager_dispatch in H. sym E H; injection H as <- <-.
  - split; [qstep|].
    exists []; do 3 eexists. split; [reflexivity|]. left. split; [reflexivity|]. eqbs. lia.
  - match goal with Hp : pop_events _ _ _ _ = _ |- _ =>
      destruct (pop_events_spec _ _ _ _ _ _ Hp) as [Q [pre [out [e [T Ho]]]]] end.
    split.
    + eapply quiet_trans; [|exact Q]. qstep.
    + eexists (_ :: pre), _, out, e. split.
      * rewrite T. cbn [trace]. rewrite <- app_assoc. reflexivity.
      * right. auto.
Qed.

Lemma pfds_loop_spec E fuel mg revents cnt :
  forall i s x s',
  pfds_loop E fuel mg revents i cnt s = (Done x, s') ->
  quiet s s' /\ forall r, x = Some r -> r <> 0.
Proof.
  induction cnt as [|cnt IH]; intros i s x s' H; cbn [pfds_loop] in H.
  - unfold ret in H. injection H as <- <-. split; [apply quiet_refl | discriminate].
  - sym E H; injection H as <- <-.
    all: repeat match goal with
      | Hp : pfds_loop _ _ _ _ _ _ _ = (Done _, _) |- _ =>
          apply IH in Hp; destruct Hp as [? ?]
      | Hp : manager_dispatch _ _ _ _ = (Done _, _) |- _ =>
          apply manager_dispatch_spec in Hp; destruct Hp as [? _]
      end.
    all: split; [eauto using quiet_trans, quiet_refl|].
    all: try assumption.
    all: intros r Hr; injection Hr as <-; eqbs; unfold ENOTRECOVERABLE; lia.
Qed.

Lemma poll_loop_spec E fuel mg s r s' :
  poll_loop E fuel mg s = (Done r, s') ->
  quiet s s' /\
  ((forall l fd ev n o e, E l (Poll fd ev) = (n, o, e) -> n < 0 -> 0 < e) -> r <> 0).
Proof.
  revert s; induction fuel as [|fuel IH]; intros s H; cbn [poll_loop] in H.
  - discriminate H.
  - sym E H; injection H as <- <-.
    + split; [qstep|].
      intros Hpoll. eqbs.
      match goal with Hp : E _ (Poll _ _) = _ |- _ => pose proof (Hpoll _ _ _ _ _ _ Hp) end.
      rewrite errno_after_set by lia. lia.
    + match goal with Hp : pfds_loop _ _ _ _ _ _ _ = _ |- _ =>
        destruct (pfds_loop_spec _ _ _ _ _ _ _ _ _ Hp) as [Q Hr] end.
      split; [eapply quiet_trans; [|exact Q]; qstep|].
      intros _. apply Hr. reflexivity.
    + match goal with Hp : pfds_loop _ _ _ _ _ _ _ = _ |- _ =>
        destruct (pfds_loop_spec _ _ _ _ _ _ _ _ _ Hp) as [Q _] end.
      match goal with Hp : poll_loop _ _ _ _ = _ |- _ =>
        destruct (IH _ Hp) as [Q' Hr] end.
      split; [|exact Hr].
      eapply quiet_trans; [|eapply quiet_trans; [exact Q | exact Q']]. qstep.
Qed.

Lemma manager_new_spec E s r m s' :
  manager_new E s = (Done (r, m), s') ->
  globals s' = globals s /\
  exists evs, trace s' = trace s ++ evs /\
  match m with
  | None => r <> 0 /\ unreleased evs = []
  | Some mg => r = 0 /\ probe mg = 0 /\
      forall x, In x (unreleased evs) -> x = (KMem, m_self mg) \/ x = (KClient, client mg)
  end.
Proof.
  intros H. unfold manager_new in H. sym E H.
  all: injection H as <- <- <-.
  all: split; [reflexivity|].
  all: eexists; split; [cbn [trace]; rewrite <- ?app_assoc; reflexivity|].
  all: unrel; eqbs.
  all: try (exfalso; lia).
  all: try (split; [unfold ENOMEM; lia|]); try (split; [reflexivity|]); try (split; [reflexivity|]).
  all: try reflexivity.
  all: intros x Hx; cbn in Hx |- *; intuition (subst; auto).
Qed.

Lemma manager_run_own E fuel mg s r mg' s' :
  manager_run E fuel mg s = (Done (r, mg'), s') ->
  globals s' = globals s /\ m_self mg' = m_self mg /\ client mg' = client mg /\
  exists evs, trace s' = trace s ++ evs /\
    forall x, In x (unreleased evs) -> x = (KProbe, probe mg').
Proof.
  intros H. unfold manager_run in H. sym E H.
  all: injection H as <- <- <-.
  all: try (match goal with Hp : poll_loop _ _ _ _ = _ |- _ =>
         destruct (poll_loop_spec _ _ _ _ _ _ Hp) as [[G [mid [T I]]] _] end;
         cbn [trace globals] in G, T |- *; rewrite ?T, ?G).
  all: split; [reflexivity|]; split; [reflexivity|]; split; [reflexivity|].
  all: eexists; split; [rewrite <- ?app_assoc; cbn [app]; reflexivity|].
  all: try (rewrite (unreleased_inert_mid2 _ _ mid) by exact I).
  all: try (rewrite (unreleased_inert_end2 _ _ mid) by exact I).
  all: unrel; eqbs.
  all: try (exfalso; lia).
  all: intros x Hx; cbn in Hx |- *; intuition (subst; auto).
Qed.

Lemma manager_run_test_spec E fuel mg s r mg' s' :
  main_arg_test (globals s) = true ->
  manager_run E fuel mg s = (Done (r, mg'), s') ->
  exists evs, trace s' = trace s ++ evs /\
    forallb (fun ev => negb (is_poll ev)) evs = true /\
    (r <> 0 -> exists c out e, In (Call c r out e) evs).
Proof.
  intros Ht H. unfold manager_run in H. sym E H.
  all: injection H as <- <- <-.
  all: try congruence.
  all: eexists; split; [cbn [trace]; rewrite <- ?app_assoc; cbn [app]; reflexivity|].
  all: split; [reflexivity|].
  all: eqbs; intros Hr; try lia.
  all: do 3 eexists; cbn; eauto 6.
Qed.

Lemma manager_run_nonzero E fuel mg s r mg' s' :
  main_arg_test (globals s) = false ->
  (forall l fd ev n o e, E l (Poll fd ev) = (n, o, e) -> n < 0 -> 0 < e) ->
  manager_run E fuel mg s = (Done (r, mg'), s') -> r <> 0.
Proof.
  intros Ht Hpoll H. unfold manager_run in H. sym E H.
  all: injection H as <- <- <-.
  all: try congruence.
  all: eqbs; try assumption.
  all: match goal with Hp : poll_loop _ _ _ _ = _ |- _ =>
         destruct (poll_loop_spec _ _ _ _ _ _ Hp) as [_ Hr]; exact (Hr Hpoll) end.
Qed.

Lemma no_unreleased evs : (forall x, In x (unreleased evs) -> False) -> unreleased evs = [].
Proof.
  intros H. destruct (unreleased evs) as [|x l] eqn:E; [reflexivity|].
  exfalso. apply (H x). left. reflexivity.
Qed.

Ltac released_in H :=
  rewrite ?existsb_app in H; cbn in H; rewrite ?Z.eqb_refl in H; cbn in H;
  rewrite ?orb_true_r in H; discriminate H.

Lemma run_spec E fuel s r s' :
  run E fuel s = (Done r, s') ->
  globals s' = globals s /\ exists evs, trace s' = trace s ++ evs /\ unreleased evs = [].
Proof.
  intros H. unfold run in H. sym E H.
  all: injection H as <- <-.
  all: match goal with Hn : manager_new _ _ = _ |- _ =>
         destruct (manager_new_spec _ _ _ _ _ Hn) as [G1 [e1 [T1 S1]]] end.
  all: eqbs.
  (* manager_new cannot fail and hand out a manager *)
  all: try (destruct S1 as [S1 _]; contradiction).
  (* manager_new failed and set nothing *)
  all: try (destruct S1 as [_ S1]; split; [exact G1|]; exists e1; split; [exact T1|exact S1]).
  (* manager_run ran; manager_free releases the manager *)
    match goal with Hr : manager_run _ _ _ _ = _ |- _ =>
      destruct (manager_run_own _ _ _ _ _ _ _ Hr) as [G2 [Hself [Hcl [e2 [T2 S2]]]]] end.
    destruct S1 as [_ [_ S1]].
    cbn [trace globals]. split; [congruence|].
    eexists. split; [rewrite T2, T1, <- !app_assoc; reflexivity|].
    apply no_unreleased. apply unreleased_app_P.
    + intros x Hx Hrel. rewrite <- Hself, <- Hcl in S1.
      destruct (S1 x Hx) as [->| ->]; released_in Hrel.
    + apply unreleased_app_P.
      * intros x Hx Hrel. rewrite (S2 x Hx) in Hrel. released_in Hrel.
      * intros x Hx. cbn in Hx. exact Hx.
Qed.

Lemma owned_app_nil g a b :
  owned_by_args g a -> unreleased b = [] -> owned_by_args g (a ++ b).
Proof.
  intros Ho Hb x Hx. destruct (unreleased_app x a b Hx) as [[H1 _]|H1].
  - exact (Ho x H1).
  - rewrite Hb in H1. destruct H1.
Qed.

Lemma owned_ext g g' a :
  main_arg_broadcast_mac g' = main_arg_broadcast_mac g ->
  main_arg_mac g' = main_arg_mac g ->
  owned_by_args g a -> owned_by_args g' a.
Proof. intros E1 E2 Ho x Hx. rewrite E1, E2. exact (Ho x Hx). Qed.

Lemma owned_set_ifindex g a i : owned_by_args g a -> owned_by_args (set_ifindex g i) a.
Proof. apply owned_ext; reflexivity. Qed.

Lemma owned_set_test g a : owned_by_args g a -> owned_by_args (set_test g) a.
Proof. apply owned_ext; reflexivity. Qed.

Lemma owned_replace_bmac g a p n sz o1 e1 r2 o2 e2 :
  owned_by_args g a -> p <> 0 ->
  owned_by_args (set_broadcast_mac g p n)
    ((a ++ [Call (Malloc sz) p o1 e1]) ++ [Call (Free (main_arg_broadcast_mac g)) r2 o2 e2]).
Proof.
  intros Ho Hp x Hx. cbn [main_arg_broadcast_mac main_arg_mac set_broadcast_mac].
  destruct (unreleased_app x _ _ Hx) as [[H1 H2]|H1]; [|cbn in H1; contradiction].
  destruct (unreleased_app x _ _ H1) as [[H3 _]|H3].
  - destruct (Ho x H3) as [->| ->]; [|right; reflexivity].
    cbn in H2. rewrite Z.eqb_refl in H2. discriminate.
  - cbn in H3. rewrite (proj2 (Z.eqb_neq p 0) Hp) in H3.
    destruct H3 as [<-|[]]. left. reflexivity.
Qed.

Lemma owned_replace_mac g a p n sz o1 e1 r2 o2 e2 :
  owned_by_args g a -> p <> 0 ->
  owned_by_args (set_mac g p n)
    ((a ++ [Call (Malloc sz) p o1 e1]) ++ [Call (Free (main_arg_mac g)) r2 o2 e2]).
Proof.
  intros Ho Hp x Hx. cbn [main_arg_broadcast_mac main_arg_mac set_mac].
  destruct (unreleased_app x _ _ Hx) as [[H1 H2]|H1]; [|cbn in H1; contradiction].
  destruct (unreleased_app x _ _ H1) as [[H3 _]|H3].
  - destruct (Ho x H3) as [->| ->]; [left; reflexivity|].
    cbn in H2. rewrite Z.eqb_refl in H2. discriminate.
  - cbn in H3. rewrite (proj2 (Z.eqb_neq p 0) Hp) in H3.
    destruct H3 as [<-|[]]. right. reflexivity.
Qed.

Lemma parse_options_own E opts :
  forall s o s',
  parse_options E opts s = (Done o, s') ->
  owned_by_args (globals s) (trace s) -> owned_by_args (globals s') (trace s').
Proof.
  induction opts as [|[c arg] opts IH]; intros s o s' H Ho; cbn [parse_options] in H.
  - unfold ret in H. injection H as <- <-. exact Ho.
  - unfold Runner.parse_hexstr, setup_test in H. sym E H.
    all: injection H as <- <-.
    all: try (match goal with Hp : parse_options _ _ _ = _ |- _ => apply (IH _ _ _ Hp) end).
    all: cbn [trace globals]; eqbs.
    all: try (exfalso; unfold ENOMEM in *; lia).
    all: subst.
    all: try exact Ho.
    all: try (apply owned_app_nil; [exact Ho | reflexivity]).
    all: try (apply owned_replace_bmac; assumption).
    all: try (apply owned_replace_mac; assumption).
    all: try (apply owned_set_ifindex; exact Ho).
    all: try apply owned_set_test.
    all: apply owned_replace_mac; [|assumption].
    all: apply owned_set_ifindex.
    all: apply owned_replace_bmac; [|assumption].
    all: apply owned_app_nil; [exact Ho | reflexivity].
Qed.

Lemma parse_options_result E opts :
  forall s o s',
  parse_options E opts s = (Done o, s') ->
  match o with
  | None => Forall (fun opt => In (fst opt) [ARG_BROADCAST_MAC; ARG_IFINDEX; ARG_MAC; ARG_TEST]) opts
  | Some r => r <> 0
  end.
Proof.
  induction opts as [|[c arg] opts IH]; intros s o s' H; cbn [parse_options] in H.
  - unfold ret in H. injection H as <- <-. constructor.
  - unfold Runner.parse_hexstr, setup_test in H. sym E H.
    all: injection H as <- <-.
    all: eqbs.
    all: try (exfalso; unfold ENOMEM in *; lia).
    all: try (unfold MAIN_EXIT, MAIN_FAILED, ENOTRECOVERABLE; lia).
    all: try assumption.
    all: match goal with Hp : parse_options _ _ _ = _ |- _ => pose proof (IH _ _ _ Hp) as IHp end.
    all: match goal with |- match ?x with Some _ => _ | None => _ end => destruct x end.
    all: try exact IHp.
    all: constructor; [cbn [fst]; subst; cbn; tauto | exact IHp].
Qed.

Lemma parse_argv_result E opts extra s r s' :
  parse_argv E opts extra s = (Done r, s') ->
  r = 0 ->
  extra = false /\
  Forall (fun opt => In (fst opt) [ARG_BROADCAST_MAC; ARG_IFINDEX; ARG_MAC; ARG_TEST]) opts /\
  main_arg_broadcast_mac (globals s') <> 0 /\ main_arg_ifindex (globals s') <> 0 /\
  main_arg_mac (globals s') <> 0.
Proof.
  intros H Hr. unfold parse_argv in H. sym E H.
  all: injection H as <- <-.
  all: match goal with Hp : parse_options _ _ _ = _ |- _ =>
         pose proof (parse_options_result _ _ _ _ _ Hp) as Ho end.
  all: cbn in Ho; subst; eqbs.
  all: try (unfold MAIN_FAILED in *; lia).
  all: try contradiction.
  all: repeat match goal with Hb : (_ || _) = false |- _ => apply orb_false_iff in Hb as [? ?] end.
  all: eqbs.
  all: repeat split; assumption.
Qed.

Lemma parse_argv_own E opts extra s r s' :
  parse_argv E opts extra s = (Done r, s') ->
  owned_by_args (globals s) (trace s) -> owned_by_args (globals s') (trace s').
Proof.
  intros H Ho. unfold parse_argv in H. sym E H.
  all: injection H as <- <-.
  all: match goal with Hp : parse_options _ _ _ = _ |- _ =>
         exact (parse_options_own _ _ _ _ _ Hp Ho) end.
Qed.

Lemma owned_freed g a r1 o1 e1 r2 o2 e2 :
  owned_by_args g a ->
  unreleased ((a ++ [Call (Free (main_arg_broadcast_mac g)) r1 o1 e1])
               ++ [Call (Free (main_arg_mac g)) r2 o2 e2]) = [].
Proof.
  intros Ho. apply no_unreleased. intros x Hx.
  destruct (unreleased_app x _ _ Hx) as [[H1 H2]|H1]; [|cbn in H1; exact H1].
  destruct (unreleased_app x _ _ H1) as [[H3 H4]|H3]; [|cbn in H3; exact H3].
  destruct (Ho x H3) as [->| ->].
  - cbn in H4. rewrite Z.eqb_refl in H4. discriminate.
  - cbn in H2. rewrite Z.eqb_refl in H2. discriminate.
Qed.

Lemma main_own E opts extra fuel s st s' :
  main E opts extra fuel s = (Done st, s') ->
  owned_by_args (globals s) (trace s) -> unreleased (trace s') = [].
Proof.
  intros H Ho. unfold main in H. sym E H.
  all: injection H as <- <-.
  all: match goal with Hp : parse_argv _ _ _ _ = _ |- _ =>
         pose proof (parse_argv_own _ _ _ _ _ _ Hp Ho) as O1 end.
  all: try (match goal with Hr : run _ _ _ = _ |- _ =>
         destruct (run_spec _ _ _ _ _ Hr) as [G2 [evs [T2 U2]]];
         pose proof (owned_app_nil _ _ _ O1 U2) as O2;
         rewrite <- T2, <- G2 in O2 end).
  all: cbn [trace globals].
  all: apply owned_freed; assumption.
Qed.


End RunnerMore.

Import Runner RunnerMore.

(** manager_new either fails, with a nonzero code and every object it
    obtained given back (the manager memory, the client configuration,
    the client), or returns 0 with a manager whose probe is NULL.  The
    configuration is released on both paths: on success only the manager
    memory and the client are still held. *)
Theorem manager_new_ownership :
  forall (E : env) (s s' : state) (r : Z) (m : option manager),
    manager_new E s = (Done (r, m), s') ->
    exists evs, trace s' = trace s ++ evs /\
      match m with
      | None => r <> 0 /\ unreleased evs = []
      | Some mg => r = 0 /\ probe mg = 0 /\
          forall x, In x (unreleased evs) -> x = (KMem, m_self mg) \/ x = (KClient, client mg)
      end.
Proof. intros E s s' r m H. exact (proj2 (manager_new_spec E s r m s' H)). Qed.

Lemma manager_new_ownership_witness :
  exists evs, trace (snd (manager_new env_ok state0)) = trace state0 ++ evs /\
    0 = 0 /\ probe (mk_manager 100 105 0) = 0 /\
    forall x, In x (unreleased evs) -> x = (KMem, 100) \/ x = (KClient, 105).
Proof.
  apply (manager_new_ownership env_ok state0 (snd (manager_new env_ok state0)) 0
           (Some (mk_manager 100 105 0))).
  vm_compute. reflexivity.
Defined.

(** manager_dispatch returns the code of its last call, the dispatch or
    a pop_event; it returns 0 only once pop_event has reported that no
    event is left. *)
Theorem manager_dispatch_drains_queue :
  forall (E : env) (fuel : nat) (mg : manager) (s s' : state) (r : Z),
    manager_dispatch E fuel mg s = (Done r, s') ->
    exists pre c out e, trace s' = trace s ++ pre ++ [Call c r out e] /\
      (c = ClientDispatch (client mg) \/ c = ClientPopEvent (client mg)) /\
      (r = 0 -> c = ClientPopEvent (client mg) /\ out = 0).
Proof.
  intros E fuel mg s s' r H.
  destruct (manager_dispatch_spec E fuel mg s r s' H)
    as [_ [pre [c [out [e [T [[Hc Hr]|[Hc Hr]]]]]]]];
    exists pre, c, out, e; (split; [exact T|]); subst c.
  - split; [left; reflexivity|]. intros H0. contradiction.
  - split; [right; reflexivity|]. intros H0. auto.
Qed.

Lemma manager_dispatch_drains_queue_witness :
  exists pre c out e,
    trace (snd (manager_dispatch env_ok 2 (mk_manager 100 101 0) state0)) =
      trace state0 ++ pre ++ [Call c 0 out e] /\
    (c = ClientDispatch 101 \/ c = ClientPopEvent 101) /\
    (0 = 0 -> c = ClientPopEvent 101 /\ out = 0).
Proof.
  apply (manager_dispatch_drains_queue env_ok 2 (mk_manager 100 101 0) state0
           (snd (manager_dispatch env_ok 2 (mk_manager 100 101 0) state0)) 0).
  vm_compute. reflexivity.
Defined.

(** Outside test mode manager_run never returns 0: the poll loop only
    ends on an error (poll failing with errno set, a revents bit other
    than POLLIN, or a nonzero dispatch code). *)
Theorem manager_run_loop_never_succeeds :
  forall (E : env) (fuel : nat) (mg mg' : manager) (s s' : state) (r : Z),
    main_arg_test (globals s) = false ->
    (forall l fd ev n o e, E l (Poll fd ev) = (n, o, e) -> n < 0 -> 0 < e) ->
    manager_run E fuel mg s = (Done (r, mg'), s') ->
    r <> 0.
Proof.
  intros E fuel mg mg' s s' r Ht Hpoll H.
  exact (manager_run_nonzero E fuel mg s r mg' s' Ht Hpoll H).
Qed.

Lemma manager_run_loop_never_succeeds_witness : -4 <> 0.
Proof.
  apply (manager_run_loop_never_succeeds env_poll_fails 2 (mk_manager 1 2 0)
           (mk_manager 1 2 101) state0
           (snd (manager_run env_poll_fails 2 (mk_manager 1 2 0) state0))).
  - reflexivity.
  - intros l fd ev n o e Hp. cbn in Hp. injection Hp as <- <- <-. lia.
  - vm_compute. reflexivity.
Defined.

(** In test mode (--test) manager_run never polls: it returns 0, or the
    nonzero code one of its calls returned. *)
Theorem manager_run_test_mode :
  forall (E : env) (fuel : nat) (mg mg' : manager) (s s' : state) (r : Z),
    main_arg_test (globals s) = true ->
    manager_run E fuel mg s = (Done (r, mg'), s') ->
    exists evs, trace s' = trace s ++ evs /\
      forallb (fun ev => negb (is_poll ev)) evs = true /\
      (r <> 0 -> exists c out e, In (Call c r out e) evs).
Proof.
  intros E fuel mg mg' s s' r Ht H.
  exact (manager_run_test_spec E fuel mg s r mg' s' Ht H).
Qed.

Lemma manager_run_test_mode_witness :
  exists evs,
    trace (snd (manager_run env_ok 2 (mk_manager 1 2 0) (mk_state [] 0 (set_test args0)))) =
      [] ++ evs /\
    forallb (fun ev => negb (is_poll ev)) evs = true /\
    (0 <> 0 -> exists c out e, In (Call c 0 out e) evs).
Proof.
  apply (manager_run_test_mode env_ok 2 (mk_manager 1 2 0) (mk_manager 1 2 101)
           (mk_state [] 0 (set_test args0))
           (snd (manager_run env_ok 2 (mk_manager 1 2 0) (mk_state [] 0 (set_test args0))))).
  - reflexivity.
  - vm_compute. reflexivity.
Defined.

(** manager_run gives back the probe configuration on every path and
    leaves the static variables and the manager's memory and client
    alone: the only object it leaves held is the probe it stores in the
    manager. *)
Theorem manager_run_ownership :
  forall (E : env) (fuel : nat) (mg mg' : manager) (s s' : state) (r : Z),
    manager_run E fuel mg s = (Done (r, mg'), s') ->
    globals s' = globals s /\ m_self mg' = m_self mg /\ client mg' = client mg /\
    exists evs, trace s' = trace s ++ evs /\
      forall x, In x (unreleased evs) -> x = (KProbe, probe mg').
Proof.
  intros E fuel mg mg' s s' r H. exact (manager_run_own E fuel mg s r mg' s' H).
Qed.

Lemma manager_run_ownership_witness :
  let s' := snd (manager_run env_poll_fails 2 (mk_manager 1 2 0) state0) in
  globals s' = globals state0 /\ 1 = 1 /\ 2 = 2 /\
  exists evs, trace s' = trace state0 ++ evs /\
    forall x, In x (unreleased evs) -> x = (KProbe, 101).
Proof.
  apply (manager_run_ownership env_poll_fails 2 (mk_manager 1 2 0) (mk_manager 1 2 101)
           state0 (snd (manager_run env_poll_fails 2 (mk_manager 1 2 0) state0)) (-4)).
  vm_compute. reflexivity.
Defined.

(** run() leaks nothing: every object it obtains (manager memory,
    client configuration, client, probe configuration, probe) is given
    back before it returns, and it leaves the static variables alone. *)
Theorem run_leak_free :
  forall (E : env) (fuel : nat) (s s' : state) (r : Z),
    run E fuel s = (Done r, s') ->
    globals s' = globals s /\
    exists evs, trace s' = trace s ++ evs /\ unreleased evs = [].
Proof. intros E fuel s s' r H. exact (run_spec E fuel s r s' H). Qed.

Lemma run_leak_free_witness :
  let s' := snd (run env_poll_fails 2 state0) in
  globals s' = globals state0 /\
  exists evs, trace s' = trace state0 ++ evs /\ unreleased evs = [].
Proof.
  apply (run_leak_free env_poll_fails 2 state0 (snd (run env_poll_fails 2 state0)) (-4)).
  vm_compute. reflexivity.
Defined.

(** parse_argv returns 0 only when every option was --broadcast-mac,
    --ifindex, --mac or --test, no operand follows them, and the
    broadcast address, the interface index and the address are all set. *)
Theorem parse_argv_success :
  forall (E : env) (opts : list (Z * string)) (extra : bool) (s s' : state),
    parse_argv E opts extra s = (Done 0, s') ->
    extra = false /\
    Forall (fun opt => In (fst opt) [ARG_BROADCAST_MAC; ARG_IFINDEX; ARG_MAC; ARG_TEST]) opts /\
    main_arg_broadcast_mac (globals s') <> 0 /\ main_arg_ifindex (globals s') <> 0 /\
    main_arg_mac (globals s') <> 0.
Proof.
  intros E opts extra s s' H. exact (parse_argv_result E opts extra s 0 s' H eq_refl).
Qed.

Lemma parse_argv_success_witness :
  let s' := snd (parse_argv env_ok [(ARG_TEST, ""%string)] false state0) in
  false = false /\
  Forall (fun opt => In (fst opt) [ARG_BROADCAST_MAC; ARG_IFINDEX; ARG_MAC; ARG_TEST])
    [(ARG_TEST, ""%string)] /\
  main_arg_broadcast_mac (globals s') <> 0 /\ main_arg_ifindex (globals s') <> 0 /\
  main_arg_mac (globals s') <> 0.
Proof.
  apply (parse_argv_success env_ok [(ARG_TEST, ""%string)] false state0).
  vm_compute. reflexivity.
Defined.

(** parse_argv never loses a buffer: a buffer it replaces
    (--broadcast-mac, --mac, --test) is freed first, so every buffer
    still held afterwards is one the static variables point to, provided
    this held before. *)
Theorem parse_argv_ownership :
  forall (E : env) (opts : list (Z * string)) (extra : bool) (s s' : state) (r : Z),
    owned_by_args (globals s) (trace s) ->
    parse_argv E opts extra s = (Done r, s') ->
    owned_by_args (globals s') (trace s').
Proof.
  intros E opts extra s s' r Ho H. exact (parse_argv_own E opts extra s r s' H Ho).
Qed.

Lemma parse_argv_ownership_witness :
  let s' := snd (parse_argv env_ok [(ARG_TEST, ""%string); (ARG_TEST, ""%string)] false state0) in
  owned_by_args (globals s') (trace s').
Proof.
  apply (parse_argv_ownership env_ok [(ARG_TEST, ""%string); (ARG_TEST, ""%string)] false
           state0 _ 0).
  - intros x Hx. destruct Hx.
  - vm_compute. reflexivity.
Defined.

(** main() ends with nothing held: whatever parse_argv and run return,
    the buffers of the static variables are freed before it exits, and
    nothing else is left. *)
Theorem main_leak_free :
  forall (E : env) (opts : list (Z * string)) (extra : bool) (fuel : nat) (s' : state) (st : Z),
    main E opts extra fuel state0 = (Done st, s') ->
    unreleased (trace s') = [].
Proof.
  intros E opts extra fuel s' st H.
  apply (main_own E opts extra fuel state0 st s' H).
  intros x Hx. destruct Hx.
Qed.

Lemma main_leak_free_witness :
  unreleased (trace (snd (main env_ok [(ARG_TEST, ""%string)] false 3 state0))) = [].
Proof.
  apply (main_leak_free env_ok [(ARG_TEST, ""%string)] false 3 _ 0).
  vm_compute. reflexivity.
Defined.


